(** * CloudBot event dispatch engine ([core/main.py])

    A shallow embedding of [core/main.py]: event construction ([Input]),
    the sieve pipeline ([do_sieve]), parameter resolution and invocation
    ([run]), the per-plugin ordered worker ([Handler]), the dispatcher
    ([dispatch]) and the router ([main]).

    Modelling conventions.
    - Python [str] values are Rocq strings, read as ASCII text (IRC lines);
      [str.lower] and [str.strip] are the ASCII versions.
    - Every call that leaves [main.py] (the connection, the logger, the
      store, a plugin function, a sieve function, a thread start) is recorded
      as an [Effect] in a trace, in program order.  What a plugin function or
      a sieve does on its own is not part of the trace: they are functions
      from their arguments to what they return or raise.
    - [queue.Queue] is a list, oldest item first; [put] and [get] are
      atomic.  [bot.running] starts true and is only ever cleared.
    - [PyExc] stands for instances of [Exception], the class caught by the
      two [except Exception] clauses of the file.  The interpreter-exit
      signals deriving from [BaseException] only are outside the model.
    - Collaborators that live outside [main.py] (plugins, the plugin manager,
      the connection, compiled regular expressions) are records holding
      exactly what [main.py] reads from them. *)

From stdpp Require Import base option list strings gmap.
From Stdlib Require Import Ascii String.

Local Open Scope string_scope.
Local Open Scope list_scope.
#[local] Set Warnings "-clear-no-such-hyp".

(** ** Python strings *)

Section PyStr.

(** [str.lower] on ASCII text: [A-Z] become [a-z]. *)
Definition lower_ascii (c : ascii) : ascii :=
  let n := nat_of_ascii c in
  if (65 <=? n)%nat && (n <=? 90)%nat then ascii_of_nat (n + 32) else c.

Fixpoint lower (s : string) : string :=
  match s with
  | EmptyString => EmptyString
  | String c s' => String (lower_ascii c) (lower s')
  end.

(** [str.isspace] on one ASCII character: TAB, LF, VT, FF, CR, the four
    separators 0x1c-0x1f and the space. *)
Definition isspace (c : ascii) : bool :=
  let n := nat_of_ascii c in
  ((9 <=? n)%nat && (n <=? 13)%nat) || ((28 <=? n)%nat && (n <=? 32)%nat).

Fixpoint lstrip (s : string) : string :=
  match s with
  | EmptyString => EmptyString
  | String c s' => if isspace c then lstrip s' else s
  end.

(** Strip on the right: a character is kept when something non-blank
    follows it or when it is itself not blank. *)
Fixpoint rstrip (s : string) : string :=
  match s with
  | EmptyString => EmptyString
  | String c s' =>
      match rstrip s' with
      | EmptyString => if isspace c then EmptyString else String c EmptyString
      | r => String c r
      end
  end.

Definition strip (s : string) : string := rstrip (lstrip s).

End PyStr.

(** ** Exceptions and results *)

(** Instances of [Exception] that the model distinguishes. *)
Inductive PyExc : Type :=
  | IndexError (what : string)
  | KeyError (key : string)
  | OtherException (name : string).

(** ** The connection ([core.irc.BotConnection]) *)

(** Modelled from the spec: [BotConnection] is defined outside [main.py];
    the record holds what [main.py] reads: own nickname, server identifier
    and the configuration mapping. *)
Record BotConnection : Type := mkConn {
  conn_nick : string;
  conn_server : string;
  conn_config : gmap string string
}.

(** ** Events ([class Input]) *)

(** A match object returned by [regex.search]. *)
Record Match : Type := mkMatch {
  match_start : nat;
  match_group0 : string
}.

(** [Input.text] holds, in turn, the parameter list (set by [__init__]), the
    stripped command text (command routing) or a match object (pattern
    routing). *)
Inductive Text : Type :=
  | TextParams (paraml : list string)
  | TextStr (s : string)
  | TextMatch (m : Match).

(** Python truthiness of [input.text]: an empty list and an empty string are
    false, a match object is always true. *)
Definition text_truthy (t : Text) : bool :=
  match t with
  | TextParams [] => false
  | TextParams (_ :: _) => true
  | TextStr EmptyString => false
  | TextStr (String _ _) => true
  | TextMatch _ => true
  end.

(** A store session, as returned by [bot.db_session()]. *)
Inductive DbSession : Type := Session.

(** The parsed line [out] that [main] unpacks into [Input(bot, conn, *out)]. *)
Record ParsedLine : Type := mkLine {
  out_raw : string;
  out_prefix : string;
  out_command : string;
  out_params : string;
  out_nick : string;
  out_user : string;
  out_host : string;
  out_mask : string;
  out_paramlist : list string;
  out_msg : string
}.

(** The attributes of an [Input] object.  [input.bot] and [input.input] are
    the ambient bot and the object itself, and need no field.  [trigger] is
    [None] until [main] assigns it; [text_unstripped] and [db] do not exist
    until [main], respectively [run], assign them. *)
Record Input : Type := mkInput {
  conn : BotConnection;
  raw : string;
  prefix : string;
  command : string;
  params : string;
  nick : string;
  user : string;
  host : string;
  mask : string;
  paraml : list string;
  msg : string;
  text : Text;
  server : string;
  lastparam : string;
  chan : string;
  trigger : option string;
  text_unstripped : option string;
  db : option DbSession
}.

Definition set_text (t : Text) (i : Input) : Input :=
  mkInput (conn i) (raw i) (prefix i) (command i) (params i) (nick i) (user i)
    (host i) (mask i) (paraml i) (msg i) t (server i) (lastparam i) (chan i)
    (trigger i) (text_unstripped i) (db i).

Definition set_trigger (t : option string) (i : Input) : Input :=
  mkInput (conn i) (raw i) (prefix i) (command i) (params i) (nick i) (user i)
    (host i) (mask i) (paraml i) (msg i) (text i) (server i) (lastparam i)
    (chan i) t (text_unstripped i) (db i).

Definition set_text_unstripped (t : string) (i : Input) : Input :=
  mkInput (conn i) (raw i) (prefix i) (command i) (params i) (nick i) (user i)
    (host i) (mask i) (paraml i) (msg i) (text i) (server i) (lastparam i)
    (chan i) (trigger i) (Some t) (db i).

Definition set_db (s : DbSession) (i : Input) : Input :=
  mkInput (conn i) (raw i) (prefix i) (command i) (params i) (nick i) (user i)
    (host i) (mask i) (paraml i) (msg i) (text i) (server i) (lastparam i)
    (chan i) (trigger i) (text_unstripped i) (Some s).

(** [Input.__init__].  [paramlist[-1]] and [paramlist[0]] raise [IndexError]
    on an empty list; the first of the two to run is [paramlist[-1]]. *)
Definition Input_init (c : BotConnection) (out : ParsedLine) : PyExc + Input :=
  match last (out_paramlist out), head (out_paramlist out) with
  | Some lastp, Some first =>
      let chan0 := lower first in
      let chan1 := if String.eqb chan0 (lower (conn_nick c))  (* is a PM *)
                   then out_nick out else chan0 in
      inr (mkInput c (out_raw out) (out_prefix out) (out_command out)
             (out_params out) (out_nick out) (out_user out) (out_host out)
             (out_mask out) (out_paramlist out) (out_msg out)
             (TextParams (out_paramlist out)) (conn_server c) lastp chan1
             None None None)
  | _, _ => inl (IndexError "list index out of range")
  end.

(** ** Values, plugins and sieves *)

(** What [getattr(input, name)] can return, and hence what a plugin function
    can receive as a parameter. *)
Inductive Value : Type :=
  | VBot
  | VConn (c : BotConnection)
  | VStr (s : string)
  | VList (l : list string)
  | VMatch (m : Match)
  | VNone
  | VInput (i : Input)
  | VDb (s : DbSession)
  | VMethod (name : string) (self : Input).

Definition value_of_text (t : Text) : Value :=
  match t with
  | TextParams l => VList l
  | TextStr s => VStr s
  | TextMatch m => VMatch m
  end.

(** [input.__dict__]: the instance attributes, in the order of their
    assignment.  [text_unstripped] and [db] are there once assigned. *)
Definition instance_attributes (i : Input) : list (string * Value) :=
  [("bot", VBot); ("conn", VConn (conn i)); ("raw", VStr (raw i));
   ("prefix", VStr (prefix i)); ("command", VStr (command i));
   ("params", VStr (params i)); ("nick", VStr (nick i));
   ("user", VStr (user i)); ("host", VStr (host i)); ("mask", VStr (mask i));
   ("paraml", VList (paraml i)); ("msg", VStr (msg i)); ("input", VInput i);
   ("text", value_of_text (text i)); ("server", VStr (server i));
   ("lastparam", VStr (lastparam i)); ("chan", VStr (chan i));
   ("trigger", from_option VStr VNone (trigger i))]
  ++ from_option (fun t => [("text_unstripped", VStr t)]) [] (text_unstripped i)
  ++ from_option (fun s => [("db", VDb s)]) [] (db i).

Definition instance_dict (i : Input) : gmap string Value :=
  list_to_map (instance_attributes i).

(** The methods of [class Input]. *)
Definition class_methods : list string :=
  ["message"; "reply"; "action"; "ctcp"; "notice"; "has_permission"].

(** [getattr(input, name)]; [None] when [hasattr(input, name)] is false.
    The instance dictionary is searched first, then the class.  (The
    attributes every Python object inherits from [object], the
    double-underscore names, are not modelled.) *)
Definition getattr (i : Input) (name : string) : option Value :=
  match instance_dict i !! name with
  | Some value => Some value
  | None =>
      if bool_decide (name ∈ class_methods) then Some (VMethod name i) else None
  end.


(** The value a plugin function returns: [None], a string, or any other
    object, represented by what [str()] makes of it. *)
Inductive PyVal : Type :=
  | PyNone
  | PyStr (s : string)
  | PyObject (str_ : string).

(** [str(out)] for a result that is not [None]. *)
Definition str (v : PyVal) : string :=
  match v with
  | PyNone => "None"
  | PyStr s => s
  | PyObject s => s
  end.

Inductive CallOutcome : Type :=
  | Returned (out : PyVal)
  | Raised (e : PyExc).

(** The plugin classes of [core.pluginmanager] that reach [dispatch]. *)
Inductive PluginClass : Type :=
  | CommandPlugin
  | RegexPlugin
  | EventPlugin.

(** Modelled from the spec: [core.pluginmanager.Plugin] is defined outside
    [main.py] (the spec's HandlerDescriptor).  The record holds what
    [main.py] reads: the object identity (the key of [bot.threads]), the
    class, [module.title], [function_name], the argument names that
    [inspect.getargspec(function)] reports, the function itself, the
    [args] dictionary (values read for their truth) and [doc]. *)
Record Plugin : Type := mkPlugin {
  plugin_id : nat;
  plugin_class : PluginClass;
  module_title : string;
  function_name : string;
  getargspec_args : option (list string);
  function : list Value -> CallOutcome;
  args : gmap string bool;
  doc : option string
}.

Definition isinstance_CommandPlugin (p : Plugin) : bool :=
  match plugin_class p with CommandPlugin => true | _ => false end.

Inductive SieveOutcome : Type :=
  | SieveReturned (r : option Input)
  | SieveRaised (e : PyExc).

(** Modelled from the spec: a sieve is a plugin whose function takes
    [(bot, input, plugin)] and returns an event or [None] (the spec's
    SieveDescriptor); the bot is ambient. *)
Record Sieve : Type := mkSieve {
  sieve_title : string;
  sieve_function_name : string;
  sieve_function : Input -> Plugin -> SieveOutcome
}.

(** ** Effects *)

Inductive LogLevel : Type := DEBUG | INFO | ERROR | EXCEPTION.

Inductive ThreadBody : Type :=
  | RunThread (plugin : Plugin) (input : Input)   (* run(bot, plugin, input) *)
  | HandlerThread (plugin : Plugin).              (* Handler.start() *)

Inductive Effect : Type :=
  | LogInput (i : Input)                 (* logger.debug("Input: ...") *)
  | Log (level : LogLevel) (message : string)
  | LogParameters (ps : list Value)      (* logger.info("Parameters used: ...") *)
  | DbSessionOpened                      (* bot.db_session() *)
  | DbSessionClosed                      (* input.db.close() *)
  | FunctionCalled (pid : nat) (parameters : list Value)
  | SieveCalled (title fname : string)
  | ConnMsg (target message : string)    (* conn.msg(target, message) *)
  | ConnCmd (cmd : string) (ps : list string)   (* conn.cmd(cmd, params) *)
  | ThreadStarted (body : ThreadBody).   (* _thread.start_new_thread *)

(** ** [Input.reply] and [Input.notice] with [target=None] *)

Definition reply (self : Input) (message : string) : list Effect :=
  let target := chan self in
  if String.eqb target (nick self)
  then [ConnMsg target message]
  else [ConnMsg target ("(" +:+ nick self +:+ ") " +:+ message)].

Definition notice (self : Input) (message : string) : list Effect :=
  let target := nick self in
  [ConnCmd "NOTICE" [target; message]].

(** ** [run] *)

Definition _input_name_aliases : gmap string string :=
  list_to_map [("inp", "text"); ("match", "text"); ("paramlist", "paraml")].

(** [if required_arg in _input_name_aliases:
        required_arg = _input_name_aliases[required_arg]] *)
Definition alias (required_arg : string) : string :=
  default required_arg (_input_name_aliases !! required_arg).

(** The loop over [required_args]: the parameters so far, or the name that
    [hasattr] rejected. *)
Fixpoint resolve (input : Input) (required_args : list string)
    (parameters : list Value) : string + list Value :=
  match required_args with
  | [] => inr parameters
  | required_arg :: rest =>
      let required_arg := alias required_arg in
      match getattr input required_arg with
      | Some value => resolve input rest (parameters ++ [value])
      | None => inl required_arg
      end
  end.

(** [required_args = inspect.getargspec(plugin.function)[0]], with the
    [None] case of the source. *)
Definition required_args (plugin : Plugin) : list string :=
  default [] (getargspec_args plugin).

(** Does the command need DB access? *)
Definition uses_db (plugin : Plugin) : bool :=
  bool_decide ("db" ∈ required_args plugin).

(** The event after [input.db = input.bot.db_session()], when that runs. *)
Definition with_db (plugin : Plugin) (input : Input) : Input :=
  if uses_db plugin then set_db Session input else input.

Definition invalid_argument_message (plugin : Plugin) (required_arg : string)
    : string :=
  "Plugin " +:+ module_title plugin +:+ ":" +:+ function_name plugin +:+
  " asked for invalid argument '" +:+ required_arg +:+
  "', cancelling execution!".

Definition run (plugin : Plugin) (input : Input) : list Effect :=
  let opened :=
    if uses_db plugin
    then [Log DEBUG ("Opened DB session for: " +:+ module_title plugin);
          DbSessionOpened]
    else [] in
  let closed :=
    if uses_db plugin
    then [Log DEBUG ("Closed DB session for: " +:+ module_title plugin);
          DbSessionClosed]
    else [] in
  [LogInput input] ++ opened ++
  match resolve (with_db plugin input) (required_args plugin) [] with
  | inl required_arg =>
      [Log ERROR (invalid_argument_message plugin required_arg)]
  | inr parameters =>
      FunctionCalled (plugin_id plugin) parameters ::
      match function plugin parameters with
      | Raised _ =>
          [Log EXCEPTION ("Error in plugin " +:+ module_title plugin +:+ ":");
           LogParameters parameters] ++ closed
      | Returned out =>
          closed ++
          match out with
          | PyNone => []
          | _ => reply (with_db plugin input) (str out)
          end
      end
  end.

(** ** The ordered worker ([class Handler]): the object *)

(** What [input_queue] holds: events, and the class [StopIteration] that
    [Handler.stop] puts as a sentinel. *)
Inductive QueueItem : Type :=
  | QInput (value : Input)
  | QStopIteration.

(** A [Handler] object: its plugin and its [queue.Queue], oldest item
    first. *)
Record Handler : Type := mkHandler {
  handler_plugin : Plugin;
  input_queue : list QueueItem
}.

(** [Handler.__init__]: an empty queue (the thread start is an effect of the
    caller, see [dispatch]). *)
Definition Handler_init (plugin : Plugin) : Handler := mkHandler plugin [].

(** [Handler.put] and [Handler.stop]: [queue.Queue.put] appends. *)
Definition put (self : Handler) (value : Input) : Handler :=
  mkHandler (handler_plugin self) (input_queue self ++ [QInput value]).

Definition stop (self : Handler) : Handler :=
  mkHandler (handler_plugin self) (input_queue self ++ [QStopIteration]).

(** ** The bot *)

(** A compiled regular expression, given by what [regex.search] returns. *)
Record Regex : Type := mkRegex {
  search : string -> option Match
}.

(** Modelled from the spec: [core.pluginmanager.PluginManager] is defined
    outside [main.py]; the record holds the five tables [main.py] reads. *)
Record PluginManager : Type := mkPluginManager {
  sieves : list Sieve;
  events : gmap string (list Plugin);
  catch_all_events : list Plugin;
  commands : gmap string Plugin;
  regex_plugins : list (Regex * Plugin)
}.

(** Modelled from the spec: [core.bot.CloudBot] is defined outside
    [main.py]; [threads] is the dictionary from plugin objects (by identity)
    to their [Handler]. *)
Record Bot : Type := mkBot {
  plugin_manager : PluginManager;
  running : bool;
  threads : gmap nat Handler
}.

Definition set_threads (t : gmap nat Handler) (bot : Bot) : Bot :=
  mkBot (plugin_manager bot) (running bot) t.

(** ** A monad for the routing thread

    The code of [dispatch] and [main] reads and updates [bot], calls out,
    and may be left by an exception. *)

Record Step (A : Type) : Type := mkStep {
  bot_after : Bot;
  effects : list Effect;
  outcome : PyExc + A
}.
Arguments mkStep {A} _ _ _.
Arguments bot_after {A} _.
Arguments effects {A} _.
Arguments outcome {A} _.

Definition M (A : Type) : Type := Bot -> Step A.

Definition ret {A} (a : A) : M A := fun bot => mkStep bot [] (inr a).

Definition bind {A B} (m : M A) (f : A -> M B) : M B := fun bot =>
  let s := m bot in
  match outcome s with
  | inl e => mkStep (bot_after s) (effects s) (inl e)
  | inr a =>
      let s' := f a (bot_after s) in
      mkStep (bot_after s') (effects s ++ effects s') (outcome s')
  end.

Definition raise {A} (e : PyExc) : M A := fun bot => mkStep bot [] (inl e).

Definition emit (es : list Effect) : M unit := fun bot => mkStep bot es (inr tt).

Definition get_bot : M Bot := fun bot => mkStep bot [] (inr bot).

Definition modify_threads (f : gmap nat Handler -> gmap nat Handler) : M unit :=
  fun bot => mkStep (set_threads (f (threads bot)) bot) [] (inr tt).

Definition lift_result {A} (r : PyExc + A) : M A :=
  match r with inl e => raise e | inr a => ret a end.

Notation "x <- m ;; k" := (bind m (fun x => k))
  (at level 100, m at next level, right associativity).
Notation "m ;;; k" := (bind m (fun _ => k))
  (at level 100, right associativity).

(** A [for] statement whose body may raise. *)
Fixpoint for_ {X} (xs : list X) (body : X -> M unit) : M unit :=
  match xs with
  | [] => ret tt
  | x :: rest => body x ;;; for_ rest body
  end.

(** ** [do_sieve] and [dispatch] *)

Definition do_sieve (sieve : Sieve) (input : Input) (plugin : Plugin)
    : M (option Input) :=
  emit [SieveCalled (sieve_title sieve) (sieve_function_name sieve)] ;;;
  match sieve_function sieve input plugin with
  | SieveReturned r => ret r
  | SieveRaised _ =>
      emit [Log EXCEPTION
              ("Error running sieve " +:+ sieve_title sieve +:+ ":" +:+
               sieve_function_name sieve +:+ " on " +:+ module_title plugin +:+
               ":" +:+ function_name plugin +:+ ":")] ;;;
      ret None
  end.

(** The [for sieve in bot.plugin_manager.sieves] loop of [dispatch]:
    [None] when a sieve made [dispatch] return. *)
Fixpoint sieve_loop (ss : list Sieve) (input : Input) (plugin : Plugin)
    : M (option Input) :=
  match ss with
  | [] => ret (Some input)
  | sieve :: rest =>
      r <- do_sieve sieve input plugin ;;
      match r with
      | None => ret None
      | Some input' => sieve_loop rest input' plugin
      end
  end.

(** Lines 262-268 of [dispatch]: the choice between the plugin's [Handler]
    and a new thread. *)
Definition start_plugin (input : Input) (plugin : Plugin) : M unit :=
  if default false (args plugin !! "singlethread") then
    bot <- get_bot ;;
    match threads bot !! plugin_id plugin with
    | Some handler =>
        modify_threads (insert (plugin_id plugin) (put handler input))
    | None =>
        modify_threads (insert (plugin_id plugin) (Handler_init plugin)) ;;;
        emit [ThreadStarted (HandlerThread plugin)]
    end
  else
    emit [ThreadStarted (RunThread plugin input)].

(** The condition of the [if] at lines 257-258. *)
Definition autohelp_condition (input : Input) (plugin : Plugin) : bool :=
  isinstance_CommandPlugin plugin
  && default true (args plugin !! "autohelp")
  && negb (text_truthy (text input))
  && bool_decide (doc plugin ≠ None).

Definition dispatch (input : Input) (plugin : Plugin) : M unit :=
  bot <- get_bot ;;
  r <- sieve_loop (sieves (plugin_manager bot)) input plugin ;;
  match r with
  | None => ret tt
  | Some input =>
      if autohelp_condition input plugin then
        match conn_config (conn input) !! "command_prefix" with
        | None => raise (KeyError "command_prefix")
        | Some command_prefix =>
            emit (notice input (command_prefix +:+ default EmptyString (doc plugin)))
        end
      else start_plugin input plugin
  end.

(** ** [main] *)

Section Router.

(** [re.match(command_re, s)] for the expression that [main] builds from
    the private-message test, the command prefix and the connection's
    nickname: groups 1 and 2 of the match, if any.  Python's [re] engine is
    a parameter of the development. *)
Variable re_match_command :
  forall (private : bool) (command_prefix nick : string) (s : string),
    option (string * string).

(** [Input(bot, conn, *out)] *)
Definition new_Input (c : BotConnection) (out : ParsedLine) : M Input :=
  lift_result (Input_init c out).

Definition main (c : BotConnection) (out : ParsedLine) : M unit :=
  bot <- get_bot ;;
  inp <- new_Input c out ;;
  let command_prefix := default "." (conn_config c !! "command_prefix") in
  (* EVENTS *)
  for_ (default [] (events (plugin_manager bot) !! command inp))
    (fun event_plugin =>
       input <- new_Input c out ;; dispatch input event_plugin) ;;;
  for_ (catch_all_events (plugin_manager bot))
    (fun event_plugin =>
       input <- new_Input c out ;; dispatch input event_plugin) ;;;
  if String.eqb (command inp) "PRIVMSG" then
    (* COMMANDS *)
    match re_match_command (String.eqb (chan inp) (nick inp)) command_prefix
            (conn_nick (conn inp)) (lastparam inp) with
    | Some (group1, group2) =>
        let command := lower group1 in
        match commands (plugin_manager bot) !! command with
        | Some plugin =>
            input <- new_Input c out ;;
            let input := set_trigger (Some command) input in
            let input := set_text_unstripped group2 input in
            let input := set_text (TextStr (strip group2)) input in
            dispatch input plugin
        | None => ret tt
        end
    | None => ret tt
    end ;;;
    (* REGEXES *)
    for_ (regex_plugins (plugin_manager bot))
      (fun '(regex, plugin) =>
         match search regex (lastparam inp) with
         | Some m =>
             input <- new_Input c out ;;
             let input := set_text (TextMatch m) input in
             dispatch input plugin
         | None => ret tt
         end)
  else ret tt.

End Router.

(** ** The ordered worker: the thread [Handler.start]

    The thread is modelled by small steps.  A step at [Polling] is one turn
    of the inner [while self.bot.running] loop (a [get] that returns an item,
    or times out on an empty queue); a step at [Checking] is the [if] that
    follows the inner loop and, when it does not break, the call of [run].
    [bot.running] is read at each step; other threads may put items and the
    bot may be shut down between any two steps. *)

Inductive Pc : Type :=
  | Polling
  | Checking
  | Exited.

Record Worker : Type := mkWorker {
  handler : Handler;              (* the object, with its queue *)
  pc : Pc;
  plugin_input : option QueueItem;  (* the local variable; unbound at first *)
  handled : list Input            (* the inputs [run] was called on, oldest first *)
}.

Definition worker_init (plugin : Plugin) : Worker :=
  mkWorker (Handler_init plugin) Polling None [].

Definition worker_step (bot_running : bool) (w : Worker) : Worker :=
  match pc w with
  | Polling =>
      if bot_running then
        match input_queue (handler w) with
        | item :: rest =>           (* get() returned: break *)
            mkWorker (mkHandler (handler_plugin (handler w)) rest) Checking
              (Some item) (handled w)
        | [] => w                   (* Empty: pass *)
        end
      else mkWorker (handler w) Checking (plugin_input w) (handled w)
  | Checking =>
      if negb bot_running then
        mkWorker (handler w) Exited (plugin_input w) (handled w)
      else
        match plugin_input w with
        | Some (QInput value) =>    (* run(self.bot, self.plugin, plugin_input) *)
            mkWorker (handler w) Polling (plugin_input w) (handled w ++ [value])
        | Some QStopIteration => mkWorker (handler w) Exited (plugin_input w) (handled w)
        | None => mkWorker (handler w) Exited None (handled w)
        end
  | Exited => w
  end.

(** The effects of the worker thread: those of its calls of [run]. *)
Definition worker_effects (w : Worker) : list Effect :=
  flat_map (run (handler_plugin (handler w))) (handled w).

(** What can happen to one handler and its thread.  [bot.running] starts
    true and is only ever cleared. *)
Inductive Action : Type :=
  | APut (value : Input)     (* Handler.put, from any thread *)
  | AStop                    (* Handler.stop *)
  | AShutdown                (* bot.running = False *)
  | AWorker.                 (* one step of Handler.start *)

Record System : Type := mkSystem {
  sys_running : bool;
  sys_worker : Worker
}.

Definition system_init (plugin : Plugin) : System :=
  mkSystem true (worker_init plugin).

Definition on_handler (f : Handler -> Handler) (w : Worker) : Worker :=
  mkWorker (f (handler w)) (pc w) (plugin_input w) (handled w).

Definition act (a : Action) (s : System) : System :=
  match a with
  | APut value => mkSystem (sys_running s) (on_handler (fun h => put h value) (sys_worker s))
  | AStop => mkSystem (sys_running s) (on_handler stop (sys_worker s))
  | AShutdown => mkSystem false (sys_worker s)
  | AWorker => mkSystem (sys_running s) (worker_step (sys_running s) (sys_worker s))
  end.

(** A schedule is run from left to right. *)
Definition exec (schedule : list Action) (s : System) : System :=
  foldl (fun s a => act a s) s schedule.

(** The items put on the queue by a schedule, in [put] order. *)
Fixpoint enqueued (schedule : list Action) : list QueueItem :=
  match schedule with
  | [] => []
  | APut value :: rest => QInput value :: enqueued rest
  | AStop :: rest => QStopIteration :: enqueued rest
  | _ :: rest => enqueued rest
  end.

(** Schedules in which nobody stops the handler or shuts the bot down. *)
Definition keeps_running (a : Action) : bool :=
  match a with APut _ | AWorker => true | _ => false end.

(** The events of a list of queue items. *)
Fixpoint inputs_of (items : list QueueItem) : list Input :=
  match items with
  | [] => []
  | QInput value :: rest => value :: inputs_of rest
  | QStopIteration :: rest => inputs_of rest
  end.

(** ** Classifying effects *)

Definition is_DbSessionOpened (e : Effect) : bool :=
  match e with DbSessionOpened => true | _ => false end.

Definition is_DbSessionClosed (e : Effect) : bool :=
  match e with DbSessionClosed => true | _ => false end.

Definition is_FunctionCalled (e : Effect) : bool :=
  match e with FunctionCalled _ _ => true | _ => false end.

(** Anything sent over the connection. *)
Definition is_send (e : Effect) : bool :=
  match e with ConnMsg _ _ | ConnCmd _ _ => true | _ => false end.

Definition is_ThreadStarted (e : Effect) : bool :=
  match e with ThreadStarted _ => true | _ => false end.

(** What the sieve pipeline may leave in the trace: the calls of the sieves
    and the logger. *)
Definition is_sieve_trace (e : Effect) : bool :=
  match e with SieveCalled _ _ | Log _ _ => true | _ => false end.

(** A result is empty when it is [None] or the empty string. *)
Definition result_non_empty (out : PyVal) : bool :=
  match out with
  | PyNone => false
  | PyStr EmptyString => false
  | _ => true
  end.

(** A sieve drops an event by returning [None] or by raising. *)
Definition drops (sieve : Sieve) (input : Input) (plugin : Plugin) : Prop :=
  sieve_function sieve input plugin = SieveReturned None
  \/ exists e, sieve_function sieve input plugin = SieveRaised e.


Definition is_notice (e : Effect) : bool :=
  match e with ConnCmd "NOTICE" _ => true | _ => false end.

(** Sequential composition of a trace with a step. *)
Definition after_effects {A} (pre : list Effect) (s : Step A) : Step A :=
  mkStep (bot_after s) (pre ++ effects s) (outcome s).

(** What [dispatch] does after the sieve loop has returned [r]. *)
Definition dispatch_tail (plugin : Plugin) (bot : Bot) (r : option Input)
    : Step unit :=
  match r with
  | None => ret tt bot
  | Some input =>
      if autohelp_condition input plugin then
        match conn_config (conn input) !! "command_prefix" with
        | None => raise (KeyError "command_prefix") bot
        | Some command_prefix =>
            emit (notice input (command_prefix +:+ default EmptyString (doc plugin))) bot
        end
      else start_plugin input plugin bot
  end.

(** The pattern plugins whose expression finds a match in [s], each with
    its match object, in registration order. *)
Definition pattern_matches (rs : list (Regex * Plugin)) (s : string)
    : list (Match * Plugin) :=
  omap (fun '(regex, plugin) => (fun m => (m, plugin)) <$> search regex s) rs.


(** The body of the [for regex, plugin in ...regex_plugins] loop of [main]. *)
Definition regex_body (c : BotConnection) (out : ParsedLine) (inp : Input)
    : Regex * Plugin -> M unit :=
  fun '(regex, plugin) =>
    match search regex (lastparam inp) with
    | Some m =>
        input <- new_Input c out ;;
        let input := set_text (TextMatch m) input in
        dispatch input plugin
    | None => ret tt
    end.

(** The items taken off the queue and not yet handled, for each position
    of the worker thread: none while polling; after the inner loop either
    none (the loop was left because the bot stopped running) or the item
    just taken. *)
Definition in_hand_ok (bot_running : bool) (w : Worker)
    (hand : list QueueItem) : Prop :=
  match pc w with
  | Polling => hand = []
  | Checking =>
      (hand = [] /\ bot_running = false)
      \/ (exists item, plugin_input w = Some item /\ hand = [item])
  | Exited => True
  end.

(** Everything put so far is, in order: the handled events, the item in
    hand, the queue. *)
Definition worker_inv (schedule : list Action) (s : System) : Prop :=
  exists hand,
    enqueued schedule =
      map QInput (handled (sys_worker s)) ++ hand ++
      input_queue (handler (sys_worker s))
    /\ in_hand_ok (sys_running s) (sys_worker s) hand.

Definition is_input (item : QueueItem) : Prop :=
  exists value, item = QInput value.

(** While nobody stops the handler or the bot, the worker is alive and only
    ever sees events. *)
Definition alive_inv (plugin : Plugin) (s : System) : Prop :=
  sys_running s = true
  /\ handler_plugin (handler (sys_worker s)) = plugin
  /\ Forall is_input (input_queue (handler (sys_worker s)))
  /\ match pc (sys_worker s) with
     | Polling => True
     | Checking => exists value, plugin_input (sys_worker s) = Some (QInput value)
     | Exited => False
     end.

(** ** Concrete connections, lines and plugins *)

Module Ex.

Definition bot_conn : BotConnection :=
  mkConn "bot" "irc.example.org" (list_to_map [("command_prefix", ".")]).

(** [:alice!u@h PRIVMSG #chan :hello] *)
Definition chan_line : ParsedLine :=
  mkLine ":alice!u@h PRIVMSG #chan :hello" "alice!u@h" "PRIVMSG"
    "#chan :hello" "alice" "u" "h" "alice!u@h" ["#chan"; "hello"] "hello".

(** [:alice!u@h PRIVMSG bot :hello] *)
Definition pm_line : ParsedLine :=
  mkLine ":alice!u@h PRIVMSG bot :hello" "alice!u@h" "PRIVMSG"
    "bot :hello" "alice" "u" "h" "alice!u@h" ["bot"; "hello"] "hello".

(** A line whose parameter list is empty. *)
Definition bare_line : ParsedLine :=
  mkLine "PING" EmptyString "PING" EmptyString EmptyString EmptyString
    EmptyString EmptyString [] EmptyString.

(** The event [Input(bot, bot_conn, *chan_line)]. *)
Definition chan_event : Input :=
  mkInput bot_conn ":alice!u@h PRIVMSG #chan :hello" "alice!u@h" "PRIVMSG"
    "#chan :hello" "alice" "u" "h" "alice!u@h" ["#chan"; "hello"] "hello"
    (TextParams ["#chan"; "hello"]) "irc.example.org" "hello" "#chan"
    None None None.

(** [def echo(inp): return inp] of a module [misc], reduced to what
    matters here: a function of the given argument names that returns
    [result]. *)
Definition returning (id : nat) (argnames : list string) (result : PyVal)
    : Plugin :=
  mkPlugin id EventPlugin "misc" "echo" (Some argnames)
    (fun _ => Returned result) ∅ None.

(** [def f(db): ...], [def f(db, bogus): ...] and [def f(): return ''] *)
Definition db_plugin : Plugin := returning 1 ["db"] PyNone.
Definition db_bogus_plugin : Plugin := returning 2 ["db"; "bogus"] PyNone.
Definition empty_string_plugin : Plugin := returning 3 [] (PyStr EmptyString).

(** The event [Input(bot, bot_conn, *pm_line)]. *)
Definition pm_event : Input :=
  mkInput bot_conn ":alice!u@h PRIVMSG bot :hello" "alice!u@h" "PRIVMSG"
    "bot :hello" "alice" "u" "h" "alice!u@h" ["bot"; "hello"] "hello"
    (TextParams ["bot"; "hello"]) "irc.example.org" "hello" "alice"
    None None None.

(** A plugin registered with [singlethread=True]. *)
Definition ordered_plugin : Plugin :=
  mkPlugin 4 EventPlugin "log" "log" (Some ["input"])
    (fun _ => Returned PyNone) {[ "singlethread" := true ]} None.

(** A bot with no sieves, no plugins and no handler threads yet. *)
Definition fresh_bot : Bot :=
  mkBot (mkPluginManager [] ∅ [] ∅ []) true ∅.

(** Three sieves: one that lets every event through, one that returns
    [None], one that raises. *)
Definition pass_sieve : Sieve :=
  mkSieve "core_sieve" "sieve_suite" (fun input _ => SieveReturned (Some input)).
Definition ignore_sieve : Sieve :=
  mkSieve "ignore" "ignore_sieve" (fun _ _ => SieveReturned None).
Definition broken_sieve : Sieve :=
  mkSieve "broken" "broken_sieve"
    (fun _ _ => SieveRaised (OtherException "ValueError")).

Definition sieved_bot : Bot :=
  mkBot (mkPluginManager [pass_sieve; broken_sieve; ignore_sieve] ∅ [] ∅ [])
    true ∅.




(** Two expressions: one that matches every text at its start, one that
    matches nothing. *)
Definition any_regex : Regex := mkRegex (fun s => Some (mkMatch 0 s)).
Definition no_regex : Regex := mkRegex (fun _ => None).

Definition first_pattern_plugin : Plugin := returning 6 ["match"] PyNone.
Definition second_pattern_plugin : Plugin := returning 7 ["match"] PyNone.
Definition third_pattern_plugin : Plugin := returning 8 ["match"] PyNone.

Definition pattern_bot : Bot :=
  mkBot
    (mkPluginManager [] ∅ [] ∅
       [(any_regex, first_pattern_plugin); (no_regex, second_pattern_plugin);
        (any_regex, third_pattern_plugin)])
    true ∅.

(** A command expression that matches no line. *)
Definition no_command (private : bool) (command_prefix nick s : string)
    : option (string * string) := None.


End Ex.

(** ** Further vocabulary for the properties of the code *)



(** The store session, and the call of the plugin function. *)
Definition is_session_or_call (e : Effect) : bool :=
  is_DbSessionOpened e || is_DbSessionClosed e || is_FunctionCalled e.

(** What the routing thread may do: call sieves, log, send a NOTICE, start
    a thread. *)
Definition is_routing_effect (e : Effect) : bool :=
  match e with
  | SieveCalled _ _ | Log _ _ | ThreadStarted _ => true
  | ConnCmd "NOTICE" _ => true
  | _ => false
  end.

(** What a dispatch does besides sieving: a NOTICE or a thread start. *)
Definition is_action (e : Effect) : bool :=
  is_ThreadStarted e || is_send e.

(** [b'] has the tables and the flag of [b], and every handler of [b] with
    its plugin and a queue that only got longer at its end. *)
Definition handlers_kept (b b' : Bot) : Prop :=
  plugin_manager b' = plugin_manager b
  /\ running b' = running b
  /\ forall k h, threads b !! k = Some h ->
       exists h', threads b' !! k = Some h'
         /\ handler_plugin h' = handler_plugin h
         /\ input_queue h `prefix_of` input_queue h'.


(** The event [main] builds for a command plugin from groups 1 and 2 of the
    command match. *)
Definition command_event (inp : Input) (group1 group2 : string) : Input :=
  set_text (TextStr (strip group2))
    (set_text_unstripped group2 (set_trigger (Some (lower group1)) inp)).

(** The calls of [dispatch] that [main] makes for an event [inp] built from
    the line, in order: the plugins of the verb, the catch-all plugins and,
    on PRIVMSG, the command plugin (if any) and the matching pattern
    plugins. *)
Definition command_route
    (re_match_command : bool -> string -> string -> string -> option (string * string))
    (pm : PluginManager) (c : BotConnection) (inp : Input)
    : list (Input * Plugin) :=
  match re_match_command (String.eqb (chan inp) (nick inp))
          (default "." (conn_config c !! "command_prefix"))
          (conn_nick (conn inp)) (lastparam inp) with
  | Some (group1, group2) =>
      match commands pm !! lower group1 with
      | Some plugin => [(command_event inp group1 group2, plugin)]
      | None => []
      end
  | None => []
  end.

Definition routes
    (re_match_command : bool -> string -> string -> string -> option (string * string))
    (pm : PluginManager) (c : BotConnection) (inp : Input)
    : list (Input * Plugin) :=
  map (fun plugin => (inp, plugin)) (default [] (events pm !! command inp))
  ++ map (fun plugin => (inp, plugin)) (catch_all_events pm)
  ++ (if String.eqb (command inp) "PRIVMSG" then
        command_route re_match_command pm c inp
        ++ map (fun '(m, plugin) => (set_text (TextMatch m) inp, plugin))
             (pattern_matches (regex_plugins pm) (lastparam inp))
      else []).

(** One call of [dispatch], as a pair. *)
Definition dispatch_call (call : Input * Plugin) : M unit :=
  dispatch call.1 call.2.

(** What the sieves make of an event: the event handed on by the last
    sieve, or [None] when one of them dropped it. *)
Fixpoint apply_sieves (ss : list Sieve) (input : Input) (plugin : Plugin)
    : option Input :=
  match ss with
  | [] => Some input
  | sieve :: rest =>
      match sieve_function sieve input plugin with
      | SieveReturned (Some input') => apply_sieves rest input' plugin
      | _ => None
      end
  end.




(** ** More concrete values *)

Module ExMore.

(** [def boom(nick): raise ValueError] *)
Definition raising_plugin : Plugin :=
  mkPlugin 10 EventPlugin "misc" "boom" (Some ["nick"])
    (fun _ => Raised (OtherException "ValueError")) ∅ None.




(** A sieve that drops private messages. *)
Definition channel_only_sieve : Sieve :=
  mkSieve "filter" "channel_only"
    (fun input _ =>
       if String.eqb (chan input) (nick input) then SieveReturned None
       else SieveReturned (Some input)).

(** A bot on which the ordered plugin has its handler. *)
Definition handler_bot : Bot :=
  mkBot (mkPluginManager [channel_only_sieve] ∅ [] ∅ []) true
    {[ 4 := Handler_init Ex.ordered_plugin ]}.

End ExMore.

(** * Event construction *)

Section Construction.

Variable c : BotConnection.
Variable out : ParsedLine.


Lemma Input_init_empty :
  out_paramlist out = [] ->
  Input_init c out = inl (IndexError "list index out of range").
Proof. intros Hp. unfold Input_init. by rewrite Hp. Qed.

End Construction.


(** * Parameter resolution and invocation ([run]) *)

Section Attributes.






End Attributes.

Section Resolve.

Variable input : Input.




End Resolve.

Section Run.

Variable plugin : Plugin.
Variable input : Input.




(** The trace of [run] when the plugin function returns. *)
Lemma run_returned (parameters : list Value) (out : PyVal) :
  resolve (with_db plugin input) (required_args plugin) [] = inr parameters ->
  function plugin parameters = Returned out ->
  run plugin input =
    [LogInput input] ++
    (if uses_db plugin
     then [Log DEBUG ("Opened DB session for: " +:+ module_title plugin);
           DbSessionOpened]
     else []) ++
    [FunctionCalled (plugin_id plugin) parameters] ++
    (if uses_db plugin
     then [Log DEBUG ("Closed DB session for: " +:+ module_title plugin);
           DbSessionClosed]
     else []) ++
    match out with
    | PyNone => []
    | _ => reply input (str out)
    end.
Proof.
  intros Hr Hf. unfold run. rewrite Hr, Hf. simpl.
  replace (reply (with_db plugin input) (str out)) with (reply input (str out));
    [done|].
  unfold with_db. by destruct (uses_db plugin).
Qed.

(** The trace of [run] when the plugin function raises. *)
Lemma run_raised (parameters : list Value) (e : PyExc) :
  resolve (with_db plugin input) (required_args plugin) [] = inr parameters ->
  function plugin parameters = Raised e ->
  run plugin input =
    [LogInput input] ++
    (if uses_db plugin
     then [Log DEBUG ("Opened DB session for: " +:+ module_title plugin);
           DbSessionOpened]
     else []) ++
    [FunctionCalled (plugin_id plugin) parameters;
     Log EXCEPTION ("Error in plugin " +:+ module_title plugin +:+ ":");
     LogParameters parameters] ++
    (if uses_db plugin
     then [Log DEBUG ("Closed DB session for: " +:+ module_title plugin);
           DbSessionClosed]
     else []).
Proof. intros Hr Hf. unfold run. by rewrite Hr, Hf. Qed.

(** Once the function has been called, the session that was opened is
    closed, whether the function returns or raises. *)
Lemma run_closes_session_after_call (parameters : list Value) :
  resolve (with_db plugin input) (required_args plugin) [] = inr parameters ->
  List.filter (fun e => is_DbSessionOpened e || is_DbSessionClosed e)
    (run plugin input) =
  if uses_db plugin then [DbSessionOpened; DbSessionClosed] else [].
Proof.
  intros Hr. destruct (function plugin parameters) as [out|e] eqn:Hf.
  - rewrite (run_returned _ _ Hr Hf). unfold reply.
    destruct (uses_db plugin), out; simpl; try done;
      by destruct (String.eqb _ _).
  - rewrite (run_raised _ _ Hr Hf). by destruct (uses_db plugin).
Qed.

End Run.




(** C8, as amended.  When the plugin function returns, [run] sends a reply
    exactly when the result is not [None] (an empty string is sent too).
    The reply is the only thing sent; it goes to the event's [chan], and
    carries [str(result)], prefixed by the sender's nick in parentheses
    unless [chan] is the sender's nick. *)
Theorem run_reply (plugin : Plugin) (input : Input)
    (parameters : list Value) (out : PyVal) :
  resolve (with_db plugin input) (required_args plugin) [] = inr parameters ->
  function plugin parameters = Returned out ->
  List.filter is_send (run plugin input) =
    match out with
    | PyNone => []
    | _ =>
        [ConnMsg (chan input)
           (if String.eqb (chan input) (nick input) then str out
            else "(" +:+ nick input +:+ ") " +:+ str out)]
    end.
Proof.
  intros Hr Hf. rewrite (run_returned _ _ _ _ Hr Hf). unfold reply.
  destruct (uses_db plugin), out; simpl; try done;
    by destruct (String.eqb (chan input) (nick input)).
Qed.

(** The claim C8 as worded ties the reply to a non-empty result: a plugin
    that returns the empty string completes without raising, its result is
    empty, and a reply is sent. *)
Lemma reply_iff_non_empty_counterexample :
  ~ (forall (plugin : Plugin) (input : Input) (parameters : list Value)
       (out : PyVal),
       resolve (with_db plugin input) (required_args plugin) [] = inr parameters ->
       function plugin parameters = Returned out ->
       (existsb is_send (run plugin input) = true <-> result_non_empty out = true)).
Proof.
  intros H.
  destruct (H Ex.empty_string_plugin Ex.chan_event [] (PyStr EmptyString)
              eq_refl eq_refl) as [Hsent _].
  vm_compute in Hsent. by specialize (Hsent eq_refl).
Qed.

(** C2.  A plugin that declares [db] and a name that does not resolve: [run]
    opens a session, logs the error and returns; the session is never
    closed and the function is not called. *)
Theorem run_leaks_session_on_invalid_argument :
  List.filter
    (fun e => is_DbSessionOpened e || is_DbSessionClosed e || is_FunctionCalled e)
    (run Ex.db_bogus_plugin Ex.chan_event) = [DbSessionOpened]
  /\ last (run Ex.db_bogus_plugin Ex.chan_event) =
       Some (Log ERROR
         "Plugin misc:echo asked for invalid argument 'bogus', cancelling execution!").
Proof. split; vm_compute; reflexivity. Qed.


(** * The routing monad *)

Section Monad.

Lemma bind_ret_step {A B} (a : A) (f : A -> M B) (bot : Bot) :
  bind (ret a) f bot = f a bot.
Proof. unfold bind, ret. simpl. by destruct (f a bot). Qed.

Lemma bind_step {A B} (m : M A) (f : A -> M B) (bot bot1 : Bot)
    (es : list Effect) (a : A) :
  m bot = mkStep bot1 es (inr a) ->
  bind m f bot = after_effects es (f a bot1).
Proof. intros Hm. unfold bind. by rewrite Hm. Qed.

Lemma bind_raise_step {A B} (m : M A) (f : A -> M B) (bot bot1 : Bot)
    (es : list Effect) (e : PyExc) :
  m bot = mkStep bot1 es (inl e) ->
  bind m f bot = mkStep bot1 es (inl e).
Proof. intros Hm. unfold bind. by rewrite Hm. Qed.

Lemma after_effects_nil {A} (s : Step A) : after_effects [] s = s.
Proof. by destruct s. Qed.


End Monad.

(** * The sieve pipeline *)

Section Sieves.

Variable plugin : Plugin.
Variable bot : Bot.

(** [do_sieve] never raises and leaves the bot alone; it returns what the
    sieve returned, or [None] when the sieve raised. *)
Lemma do_sieve_step (sieve : Sieve) (input : Input) :
  exists es r,
    do_sieve sieve input plugin bot = mkStep bot es (inr r)
    /\ forallb is_sieve_trace es = true
    /\ (r = None <-> drops sieve input plugin)
    /\ (forall input', r = Some input' <->
          sieve_function sieve input plugin = SieveReturned (Some input')).
Proof.
  unfold do_sieve, drops, bind, emit, ret; simpl.
  destruct (sieve_function sieve input plugin) as [[i'|]|e]; simpl;
    eexists _, _; (split; [reflexivity|]); (split; [done|]);
    split; naive_solver.
Qed.

Lemma sieve_loop_step (ss : list Sieve) (input : Input) :
  exists es r,
    sieve_loop ss input plugin bot = mkStep bot es (inr r)
    /\ forallb is_sieve_trace es = true.
Proof.
  revert input. induction ss as [|sieve rest IH]; intros input; simpl.
  - by exists [], (Some input).
  - destruct (do_sieve_step sieve input) as (es & r & Hs & Hes & _).
    rewrite (bind_step _ _ _ _ _ _ Hs). destruct r as [input'|].
    + destruct (IH input') as (es' & r' & Hs' & Hes'). rewrite Hs'.
      exists (es ++ es'), r'. split; [done|].
      rewrite forallb_app. by rewrite Hes, Hes'.
    + exists es, None. unfold ret, after_effects; simpl.
      by rewrite app_nil_r.
Qed.

(** The loop over [before ++ sieve :: after] when the sieves of [before]
    pass and [sieve] drops: the sieves of [after] are not reached. *)
Lemma sieve_loop_drop (before after : list Sieve) (sieve : Sieve)
    (input input1 : Input) :
  outcome (sieve_loop before input plugin bot) = inr (Some input1) ->
  drops sieve input1 plugin ->
  sieve_loop (before ++ sieve :: after) input plugin bot =
    mkStep bot
      (effects (sieve_loop before input plugin bot) ++
       effects (do_sieve sieve input1 plugin bot))
      (inr None).
Proof.
  revert input.
  induction before as [|s0 before IH]; intros input; cbn [sieve_loop app].
  - intros [= ->] Hdrop.
    destruct (do_sieve_step sieve input1) as (es & r & Hs & _ & Hr & _).
    apply Hr in Hdrop as ->. rewrite (bind_step _ _ _ _ _ _ Hs), Hs.
    unfold ret, after_effects; simpl. by rewrite app_nil_r.
  - destruct (do_sieve_step s0 input) as (es & r & Hs & _).
    rewrite !(bind_step _ _ _ _ _ _ Hs). destruct r as [input'|]; simpl.
    + intros Hbefore Hdrop. rewrite (IH _ Hbefore Hdrop).
      unfold after_effects; simpl. by rewrite app_assoc.
    + by intros [=].
Qed.

End Sieves.

(** * The dispatcher *)

Section Dispatch.

Variable plugin : Plugin.
Variable bot : Bot.

Lemma dispatch_step (input : Input) (es : list Effect) (r : option Input) :
  sieve_loop (sieves (plugin_manager bot)) input plugin bot
    = mkStep bot es (inr r) ->
  dispatch input plugin bot = after_effects es (dispatch_tail plugin bot r).
Proof.
  intros Hs. unfold dispatch.
  rewrite (bind_step get_bot _ bot bot [] bot eq_refl), after_effects_nil.
  rewrite (bind_step _ _ _ _ _ _ Hs). unfold dispatch_tail.
  destruct r as [input1|]; [|done].
  destruct (autohelp_condition input1 plugin); [|done].
  by destruct (conn_config (conn input1) !! "command_prefix").
Qed.

(** The three cases of lines 262-268. *)
Lemma start_plugin_concurrent (input : Input) :
  default false (args plugin !! "singlethread") = false ->
  start_plugin input plugin bot =
    mkStep bot [ThreadStarted (RunThread plugin input)] (inr tt).
Proof. intros Hs. unfold start_plugin. by rewrite Hs. Qed.

Lemma start_plugin_existing (input : Input) (handler : Handler) :
  default false (args plugin !! "singlethread") = true ->
  threads bot !! plugin_id plugin = Some handler ->
  start_plugin input plugin bot =
    mkStep (set_threads (<[plugin_id plugin := put handler input]> (threads bot)) bot)
      [] (inr tt).
Proof.
  intros Hs Hh. unfold start_plugin. rewrite Hs.
  rewrite (bind_step get_bot _ bot bot [] bot eq_refl), after_effects_nil.
  by rewrite Hh.
Qed.

(** On the first dispatch the [Handler] is created; [input] is not part of
    the result. *)
Lemma start_plugin_first (input : Input) :
  default false (args plugin !! "singlethread") = true ->
  threads bot !! plugin_id plugin = None ->
  start_plugin input plugin bot =
    mkStep (set_threads (<[plugin_id plugin := Handler_init plugin]> (threads bot)) bot)
      [ThreadStarted (HandlerThread plugin)] (inr tt).
Proof.
  intros Hs Hh. unfold start_plugin. rewrite Hs.
  rewrite (bind_step get_bot _ bot bot [] bot eq_refl), after_effects_nil.
  by rewrite Hh.
Qed.

Lemma start_plugin_no_notice (input : Input) :
  existsb is_notice (effects (start_plugin input plugin bot)) = false
  /\ outcome (start_plugin input plugin bot) = inr tt.
Proof.
  destruct (default false (args plugin !! "singlethread")) eqn:Hs.
  - destruct (threads bot !! plugin_id plugin) as [h|] eqn:Hh.
    + by rewrite (start_plugin_existing _ _ Hs Hh).
    + by rewrite (start_plugin_first _ Hs Hh).
  - by rewrite (start_plugin_concurrent _ Hs).
Qed.

(** A trace of sieve calls and log entries starts no thread, calls no
    plugin function and sends nothing. *)
Lemma sieve_trace_only (es : list Effect) :
  forallb is_sieve_trace es = true ->
  existsb is_notice es = false
  /\ existsb is_ThreadStarted es = false
  /\ existsb is_FunctionCalled es = false
  /\ existsb is_send es = false.
Proof.
  induction es as [|e es IH]; [done|]. simpl.
  intros [He Hes]%andb_true_iff.
  destruct (IH Hes) as (-> & -> & -> & ->). by destruct e.
Qed.



End Dispatch.

(** C3.  When the sieves registered before [sieve] let the event through
    (as [input1]) and [sieve] drops it, by returning [None] or by raising,
    [dispatch] returns normally with the bot unchanged.  Its trace is that
    of the sieves up to and including [sieve]: calls of sieves and log
    entries only, so no later sieve is called, no thread is started, the
    plugin is not invoked and nothing is sent. *)
Theorem dispatch_stops_at_drop (bot : Bot) (plugin : Plugin)
    (before after : list Sieve) (sieve : Sieve) (input input1 : Input) :
  sieves (plugin_manager bot) = before ++ sieve :: after ->
  outcome (sieve_loop before input plugin bot) = inr (Some input1) ->
  drops sieve input1 plugin ->
  let s := dispatch input plugin bot in
  outcome s = inr tt
  /\ bot_after s = bot
  /\ effects s = effects (sieve_loop before input plugin bot) ++
                 effects (do_sieve sieve input1 plugin bot)
  /\ forallb is_sieve_trace (effects s) = true
  /\ existsb is_ThreadStarted (effects s) = false
  /\ existsb is_FunctionCalled (effects s) = false
  /\ existsb is_send (effects s) = false.
Proof.
  intros Hsieves Hbefore Hdrop s.
  pose proof (sieve_loop_drop plugin bot before after sieve input input1
                Hbefore Hdrop) as Hloop.
  rewrite <- Hsieves in Hloop.
  assert (Hs : s = mkStep bot
                 (effects (sieve_loop before input plugin bot) ++
                  effects (do_sieve sieve input1 plugin bot)) (inr tt)).
  { unfold s. rewrite (dispatch_step _ _ _ _ _ Hloop).
    unfold after_effects, dispatch_tail, ret; simpl. by rewrite app_nil_r. }
  destruct (sieve_loop_step plugin bot before input) as (es1 & r1 & H1 & Ht1).
  destruct (do_sieve_step plugin bot sieve input1) as (es2 & r2 & H2 & Ht2 & _).
  rewrite Hs, H1, H2; simpl.
  assert (Ht : forallb is_sieve_trace (es1 ++ es2) = true)
    by (by rewrite forallb_app, Ht1, Ht2).
  destruct (sieve_trace_only _ Ht) as (_ & ? & ? & ?).
  repeat split; done.
Qed.



(** C1.  The first event for a plugin registered with [singlethread=True]:
    [dispatch] creates the [Handler] and starts its thread, but never puts
    the event on the new queue.  The queue is empty afterwards, the worker
    handles nothing however long it runs, and the second event is the first
    one on the queue. *)
Theorem first_ordered_event_is_lost :
  let s1 := dispatch Ex.chan_event Ex.ordered_plugin Ex.fresh_bot in
  let s2 := dispatch Ex.pm_event Ex.ordered_plugin (bot_after s1) in
  outcome s1 = inr tt
  /\ effects s1 = [ThreadStarted (HandlerThread Ex.ordered_plugin)]
  /\ input_queue <$> threads (bot_after s1) !! 4 = Some []
  /\ (forall n,
        handled (Nat.iter n (worker_step true) (worker_init Ex.ordered_plugin)) = [])
  /\ outcome s2 = inr tt
  /\ effects s2 = []
  /\ input_queue <$> threads (bot_after s2) !! 4 = Some [QInput Ex.pm_event].
Proof.
  repeat split; try (vm_compute; reflexivity).
  intros n.
  assert (H : Nat.iter n (worker_step true) (worker_init Ex.ordered_plugin)
              = worker_init Ex.ordered_plugin) by (induction n; simpl; [|rewrite IHn]; done).
  by rewrite H.
Qed.


(** * The router *)

Section Main.



Lemma regex_body_match (c : BotConnection) (out : ParsedLine) (inp : Input)
    (regex : Regex) (plugin : Plugin) (m : Match) (bot : Bot) :
  Input_init c out = inr inp ->
  search regex (lastparam inp) = Some m ->
  regex_body c out inp (regex, plugin) bot =
    dispatch (set_text (TextMatch m) inp) plugin bot.
Proof.
  intros Hinit Hm. unfold regex_body, new_Input. rewrite Hm, Hinit.
  cbn [lift_result].
  exact (bind_ret_step inp
           (fun input => dispatch (set_text (TextMatch m) input) plugin) bot).
Qed.

Lemma regex_body_no_match (c : BotConnection) (out : ParsedLine) (inp : Input)
    (regex : Regex) (plugin : Plugin) (bot : Bot) :
  search regex (lastparam inp) = None ->
  regex_body c out inp (regex, plugin) bot = mkStep bot [] (inr tt).
Proof. intros Hm. unfold regex_body. by rewrite Hm. Qed.

Lemma pattern_matches_cons (regex : Regex) (plugin : Plugin)
    (rs : list (Regex * Plugin)) (s : string) :
  pattern_matches ((regex, plugin) :: rs) s =
    match search regex s with
    | Some m => (m, plugin) :: pattern_matches rs s
    | None => pattern_matches rs s
    end.
Proof. unfold pattern_matches. simpl. by destruct (search regex s). Qed.


End Main.

Section MainTheorems.

Variable re_match_command : bool -> string -> string -> string -> option (string * string).

(** [main] up to the construction of [inp]. *)
Lemma main_Input_error (bot : Bot) (c : BotConnection) (out : ParsedLine)
    (e : PyExc) :
  Input_init c out = inl e ->
  main re_match_command c out bot = mkStep bot [] (inl e).
Proof.
  intros Hinit. unfold main.
  rewrite (bind_step get_bot _ bot bot [] bot eq_refl), after_effects_nil.
  unfold new_Input at 1. rewrite Hinit. cbn [lift_result].
  by rewrite (bind_raise_step (raise e) _ bot bot [] e eq_refl).
Qed.

End MainTheorems.

(** C10.  Event construction needs a non-empty parameter list: on an empty
    one [Input.__init__] raises [IndexError], and [main], which constructs
    an event first, is left by that exception with the bot unchanged and an
    empty trace, so before any dispatch. *)
Theorem empty_paramlist_fails_before_dispatch
    (re_match_command : bool -> string -> string -> string -> option (string * string))
    (bot : Bot) (c : BotConnection) (out : ParsedLine) :
  out_paramlist out = [] ->
  Input_init c out = inl (IndexError "list index out of range")
  /\ main re_match_command c out bot =
       mkStep bot [] (inl (IndexError "list index out of range")).
Proof.
  intros Hp. pose proof (Input_init_empty c out Hp) as Hinit.
  split; [done|]. by apply main_Input_error.
Qed.



(** * The ordered worker *)

Section Worker.

Variable plugin : Plugin.

Lemma exec_snoc (schedule : list Action) (a : Action) (s : System) :
  exec (schedule ++ [a]) s = act a (exec schedule s).
Proof. unfold exec. by rewrite foldl_app. Qed.

Lemma enqueued_app (s1 s2 : list Action) :
  enqueued (s1 ++ s2) = enqueued s1 ++ enqueued s2.
Proof.
  induction s1 as [|a s1 IH]; [done|].
  destruct a; simpl; by rewrite ?IH.
Qed.

Lemma inputs_of_app (q1 q2 : list QueueItem) :
  inputs_of (q1 ++ q2) = inputs_of q1 ++ inputs_of q2.
Proof.
  induction q1 as [|item q1 IH]; [done|].
  destruct item; simpl; by rewrite ?IH.
Qed.

Lemma inputs_of_map (vs : list Input) : inputs_of (map QInput vs) = vs.
Proof. induction vs as [|v vs IH]; simpl; by rewrite ?IH. Qed.

Lemma all_inputs (q : list QueueItem) :
  Forall is_input q -> q = map QInput (inputs_of q).
Proof.
  induction 1 as [|item q [v ->] _ IH]; [done|]. simpl. by rewrite <- IH.
Qed.

(** The FIFO invariant holds along every schedule. *)
Lemma worker_inv_exec (schedule : list Action) :
  worker_inv schedule (exec schedule (system_init plugin)).
Proof.
  induction schedule as [|a schedule IH] using rev_ind.
  { exists []. by split. }
  rewrite exec_snoc. unfold worker_inv in *. rewrite enqueued_app.
  destruct IH as (hand & Heq & Hhand). rewrite Heq.
  destruct (exec schedule (system_init plugin)) as [running [h p pin done]].
  simpl in *. clear Heq.
  destruct a as [v| | |]; simpl.
  - exists hand. split; [by rewrite <- !app_assoc | done].
  - exists hand. split; [by rewrite <- !app_assoc | done].
  - exists hand. rewrite app_nil_r. split; [done|].
    unfold in_hand_ok in *; simpl in *. destruct p; naive_solver.
  - rewrite app_nil_r. unfold worker_step, in_hand_ok in *; simpl in *.
    destruct p; simpl.
    + subst hand. destruct running; simpl.
      * destruct h as [hp [|item rest]]; simpl.
        -- by exists [].
        -- exists [item]. split; [done|]. right. by exists item.
      * exists []. split; [done|]. by left.
    + destruct running; simpl.
      * destruct Hhand as [[_ [=]]|(item & -> & ->)].
        destruct item as [v|]; simpl.
        -- exists []. split; [|done]. rewrite map_app. simpl.
           by rewrite <- !app_assoc.
        -- by exists [QStopIteration].
      * by exists hand.
    + by exists hand.
Qed.

Lemma alive_inv_exec (schedule : list Action) :
  forallb keeps_running schedule = true ->
  alive_inv plugin (exec schedule (system_init plugin)).
Proof.
  induction schedule as [|a schedule IH] using rev_ind.
  { intros _. repeat split; simpl; by auto. }
  rewrite forallb_app. intros [Hs Ha]%andb_true_iff. simpl in Ha.
  rewrite exec_snoc. destruct (IH Hs) as (Hrun & Hplug & Hq & Hpc).
  destruct (exec schedule (system_init plugin)) as [running [h p pin done]].
  simpl in *. subst running. unfold alive_inv.
  destruct a as [v| | |]; simpl in *; try done.
  - repeat split; try done. apply Forall_app. split; [done|].
    apply Forall_singleton. by exists v.
  - unfold worker_step; simpl. destruct p; simpl; [|destruct Hpc as [v ->]|done].
    + destruct h as [hp [|item rest]]; simpl in *; [done|].
      apply Forall_cons in Hq as [[v ->] Hrest].
      repeat split; try done. by exists v.
    + simpl. done.
Qed.

End Worker.

Section Drain.

Lemma exec_worker_S (n : nat) (s : System) :
  exec (replicate (S n) AWorker) s = exec (replicate n AWorker) (act AWorker s).
Proof. done. Qed.

(** A polling worker on an empty queue waits. *)
Lemma exec_worker_idle (n : nat) (w : Worker) :
  pc w = Polling -> input_queue (handler w) = [] ->
  exec (replicate n AWorker) (mkSystem true w) = mkSystem true w.
Proof.
  intros Hpc Hq. induction n as [|n IH]; [done|].
  rewrite exec_worker_S. simpl. unfold worker_step. by rewrite Hpc, Hq.
Qed.

(** A polling worker handles the events of its queue in order, two steps
    per event. *)
Lemma exec_worker_drain (vs : list Input) (w : Worker) (n : nat) :
  pc w = Polling ->
  input_queue (handler w) = map QInput vs ->
  2 * List.length vs <= n ->
  let w' := sys_worker (exec (replicate n AWorker) (mkSystem true w)) in
  handled w' = handled w ++ vs
  /\ handler_plugin (handler w') = handler_plugin (handler w).
Proof.
  revert w n. induction vs as [|v vs IH]; intros w n Hpc Hq Hn.
  - rewrite (exec_worker_idle n w Hpc Hq). simpl. by rewrite app_nil_r.
  - simpl in Hn. destruct n as [|[|n]]; [lia..|].
    rewrite !exec_worker_S.
    destruct w as [[hp q] p pin done]. simpl in Hpc, Hq. subst p q.
    assert (Hstep :
      act AWorker (act AWorker
        (mkSystem true
           (mkWorker (mkHandler hp (QInput v :: map QInput vs)) Polling pin done)))
      = mkSystem true
          (mkWorker (mkHandler hp (map QInput vs)) Polling
             (Some (QInput v)) (done ++ [v]))) by done.
    rewrite Hstep.
    destruct (IH (mkWorker (mkHandler hp (map QInput vs)) Polling
                    (Some (QInput v)) (done ++ [v])) n) as [Hh Hp];
      [done | done | lia |].
    simpl in Hh, Hp |- *. rewrite Hh, Hp. by rewrite <- app_assoc.
Qed.

End Drain.

(** C4.  For one [Handler] and its thread, along any schedule of puts,
    sentinel puts, a shutdown and worker steps: the events on which [run]
    has been called are, in order, an initial part of the items put on the
    queue, and any single action adds at most one event to them.  When
    the handler is not stopped and the bot not shut down, the worker, given
    two steps per item, has called [run] on exactly the events put, in the
    order they were put, and its effects are those of these calls of [run]
    one after the other. *)
Theorem ordered_worker_fifo (plugin : Plugin) (schedule : list Action) :
  let s := exec schedule (system_init plugin) in
  map QInput (handled (sys_worker s)) `prefix_of` enqueued schedule
  /\ (forall a, List.length (handled (sys_worker (act a s)))
                <= S (List.length (handled (sys_worker s))))
  /\ (forallb keeps_running schedule = true ->
      forall n, 2 * List.length (enqueued schedule) <= n ->
        let w := sys_worker (exec (replicate n AWorker) s) in
        handled w = inputs_of (enqueued schedule)
        /\ worker_effects w =
             flat_map (run plugin) (inputs_of (enqueued schedule))).
Proof.
  intros s. pose proof (worker_inv_exec plugin schedule) as (hand & Heq & Hhand).
  fold s in Heq, Hhand. split; [|split].
  - rewrite Heq. by eexists.
  - intros a. destruct s as [running [h p pin done]].
    destruct a; simpl; try lia. unfold worker_step; simpl.
    destruct p, running; simpl; try lia.
    + destruct (input_queue h); simpl; lia.
    + destruct pin as [[v|]|]; simpl; rewrite ?length_app; simpl; lia.
  - intros Hquiet n Hn.
    pose proof (alive_inv_exec plugin schedule Hquiet) as (Hrun & Hplug & Hq & Hpc).
    fold s in Hrun, Hplug, Hq, Hpc.
    assert (Hgoal : let w := sys_worker (exec (replicate n AWorker) s) in
              handled w = inputs_of (enqueued schedule)
              /\ handler_plugin (handler w) = plugin).
    { rewrite Heq in Hn |- *. rewrite !inputs_of_app, inputs_of_map.
      rewrite !length_app, length_map in Hn.
      destruct s as [running [h p pin done]]. simpl in *. subst running.
      unfold in_hand_ok in Hhand. simpl in Hhand.
      pose proof (all_inputs _ Hq) as Hqueue.
      destruct p; [| |done].
      - subst hand. simpl in *.
        destruct (exec_worker_drain (inputs_of (input_queue h))
                    (mkWorker h Polling pin done) n) as [Hh Hp];
          [done | done | rewrite Hqueue, length_map in Hn; lia |].
        simpl in Hh, Hp. by rewrite Hh, Hp.
      - destruct Hpc as [v ->].
        destruct Hhand as [[_ [=]]|(item & [= <-] & ->)]. simpl in *.
        destruct n as [|n]; [lia|]. rewrite exec_worker_S. simpl act.
        unfold worker_step; simpl.
        destruct (exec_worker_drain (inputs_of (input_queue h))
                    (mkWorker h Polling (Some (QInput v)) (done ++ [v])) n)
          as [Hh Hp];
          [done | done | rewrite Hqueue, length_map in Hn; lia |].
        simpl in Hh, Hp. rewrite Hh, Hp. by rewrite <- app_assoc. }
    destruct Hgoal as [Hh Hp]. split; [done|].
    unfold worker_effects. by rewrite Hh, Hp.
Qed.

(** * The theorems at concrete inputs *)

Lemma chan_event_init : Input_init Ex.bot_conn Ex.chan_line = inr Ex.chan_event.
Proof. reflexivity. Qed.

Lemma pm_event_init : Input_init Ex.bot_conn Ex.pm_line = inr Ex.pm_event.
Proof. reflexivity. Qed.


(** Parameters [#chan hello]: the target is [#chan]. *)
Example chan_resolution_channel :
  chan <$> (match Input_init Ex.bot_conn Ex.chan_line with
            | inr i => Some i | inl _ => None end) = Some "#chan".
Proof. reflexivity. Qed.

Example chan_resolution_private :
  chan <$> (match Input_init Ex.bot_conn Ex.pm_line with
            | inr i => Some i | inl _ => None end) = Some "alice".
Proof. reflexivity. Qed.


(** Replying to [#chan] as sender [alice] yields [(alice) <text>]. *)
Lemma run_reply_witness :
  resolve (with_db (Ex.returning 9 ["nick"] (PyStr "hi")) Ex.chan_event)
    (required_args (Ex.returning 9 ["nick"] (PyStr "hi"))) [] = inr [VStr "alice"]
  /\ function (Ex.returning 9 ["nick"] (PyStr "hi")) [VStr "alice"]
       = Returned (PyStr "hi")
  /\ List.filter is_send (run (Ex.returning 9 ["nick"] (PyStr "hi")) Ex.chan_event)
       = [ConnMsg "#chan" "(alice) hi"].
Proof.
  split; [reflexivity|]. split; [reflexivity|].
  exact (run_reply (Ex.returning 9 ["nick"] (PyStr "hi")) Ex.chan_event
           [VStr "alice"] (PyStr "hi") eq_refl eq_refl).
Defined.

(** Replying to [alice] when the sender is [alice] yields the bare text. *)
Example run_reply_private :
  List.filter is_send (run (Ex.returning 9 ["nick"] (PyStr "hi")) Ex.pm_event)
    = [ConnMsg "alice" "hi"].
Proof. reflexivity. Qed.

Lemma dispatch_stops_at_drop_witness :
  sieves (plugin_manager Ex.sieved_bot)
    = [Ex.pass_sieve] ++ Ex.broken_sieve :: [Ex.ignore_sieve]
  /\ outcome (sieve_loop [Ex.pass_sieve] Ex.chan_event Ex.db_plugin Ex.sieved_bot)
       = inr (Some Ex.chan_event)
  /\ drops Ex.broken_sieve Ex.chan_event Ex.db_plugin
  /\ effects (dispatch Ex.chan_event Ex.db_plugin Ex.sieved_bot) =
       [SieveCalled "core_sieve" "sieve_suite"; SieveCalled "broken" "broken_sieve";
        Log EXCEPTION "Error running sieve broken:broken_sieve on misc:echo:"]
  /\ outcome (dispatch Ex.chan_event Ex.db_plugin Ex.sieved_bot) = inr tt
  /\ bot_after (dispatch Ex.chan_event Ex.db_plugin Ex.sieved_bot) = Ex.sieved_bot.
Proof.
  assert (Hdrop : drops Ex.broken_sieve Ex.chan_event Ex.db_plugin)
    by (right; eexists; reflexivity).
  split; [reflexivity|]. split; [reflexivity|]. split; [exact Hdrop|].
  destruct (dispatch_stops_at_drop Ex.sieved_bot Ex.db_plugin [Ex.pass_sieve]
              [Ex.ignore_sieve] Ex.broken_sieve Ex.chan_event Ex.chan_event
              eq_refl eq_refl Hdrop) as (Hout & Hbot & Heff & _).
  split; [exact Heff|]. split; [exact Hout | exact Hbot].
Defined.


Lemma empty_paramlist_fails_before_dispatch_witness :
  out_paramlist Ex.bare_line = []
  /\ Input_init Ex.bot_conn Ex.bare_line
       = inl (IndexError "list index out of range")
  /\ main Ex.no_command Ex.bot_conn Ex.bare_line Ex.pattern_bot =
       mkStep Ex.pattern_bot [] (inl (IndexError "list index out of range")).
Proof.
  split; [reflexivity|].
  exact (empty_paramlist_fails_before_dispatch Ex.no_command Ex.pattern_bot
           Ex.bot_conn Ex.bare_line eq_refl).
Defined.


(** Two events put around a worker step: both handled, in put order. *)
Lemma ordered_worker_fifo_witness :
  forallb keeps_running [APut Ex.chan_event; AWorker; APut Ex.pm_event] = true
  /\ handled (sys_worker
       (exec (replicate 4 AWorker)
          (exec [APut Ex.chan_event; AWorker; APut Ex.pm_event]
             (system_init Ex.ordered_plugin))))
     = [Ex.chan_event; Ex.pm_event].
Proof.
  split; [reflexivity|].
  destruct (ordered_worker_fifo Ex.ordered_plugin
              [APut Ex.chan_event; AWorker; APut Ex.pm_event]) as (_ & _ & H).
  destruct (H eq_refl 4 (le_n 4)) as [Hh _]. exact Hh.
Defined.


(** * Further properties of [run] *)

Section RunMore.

Variable plugin : Plugin.
Variable input : Input.



End RunMore.


(** X2.  A plugin that does not declare [db] never touches the store.  For
    one that does, when every name resolves, the session is opened once
    before the call of the function and closed once after it, whether the
    function returns or raises. *)
Theorem run_session_brackets_call (plugin : Plugin) (input : Input) :
  (uses_db plugin = false ->
   existsb (fun e => is_DbSessionOpened e || is_DbSessionClosed e)
     (run plugin input) = false)
  /\ (forall parameters,
        resolve (with_db plugin input) (required_args plugin) [] = inr parameters ->
        List.filter is_session_or_call (run plugin input) =
          if uses_db plugin
          then [DbSessionOpened; FunctionCalled (plugin_id plugin) parameters;
                DbSessionClosed]
          else [FunctionCalled (plugin_id plugin) parameters]).
Proof.
  split.
  - intros Hdb. unfold run. rewrite Hdb.
    destruct (resolve _ _ _) as [bad|ps]; [done|].
    destruct (function plugin ps) as [out|e]; [|done].
    unfold reply. destruct out; simpl; try done; by destruct (String.eqb _ _).
  - intros parameters Hr.
    destruct (function plugin parameters) as [out|e] eqn:Hf.
    + rewrite (run_returned _ _ _ _ Hr Hf). unfold reply.
      destruct (uses_db plugin), out; simpl; try done;
        by destruct (String.eqb _ _).
    + rewrite (run_raised _ _ _ _ Hr Hf). by destruct (uses_db plugin).
Qed.

(** X3.  When the plugin function raises, [run] returns after logging the
    failure and the parameters: nothing is sent over the connection, and
    the last thing it does is to close the session if there is one. *)
Theorem run_handler_exception_is_silent (plugin : Plugin) (input : Input)
    (parameters : list Value) (e : PyExc) :
  resolve (with_db plugin input) (required_args plugin) [] = inr parameters ->
  function plugin parameters = Raised e ->
  existsb is_send (run plugin input) = false
  /\ Log EXCEPTION ("Error in plugin " +:+ module_title plugin +:+ ":")
       ∈ run plugin input
  /\ LogParameters parameters ∈ run plugin input
  /\ last (run plugin input) =
       Some (if uses_db plugin then DbSessionClosed else LogParameters parameters).
Proof.
  intros Hr Hf. rewrite (run_raised _ _ _ _ Hr Hf).
  destruct (uses_db plugin); simpl; repeat split; try done;
    repeat (first [by left | right]).
Qed.

(** * Further properties of the dispatcher *)

Section DispatchMore.

Lemma handlers_kept_refl (b : Bot) : handlers_kept b b.
Proof. repeat split. intros k h Hk. by exists h. Qed.

Lemma handlers_kept_trans (b1 b2 b3 : Bot) :
  handlers_kept b1 b2 -> handlers_kept b2 b3 -> handlers_kept b1 b3.
Proof.
  intros (Hp1 & Hr1 & H1) (Hp2 & Hr2 & H2). split; [congruence|].
  split; [congruence|]. intros k h Hk.
  destruct (H1 k h Hk) as (h' & Hk' & Hpl' & Hq').
  destruct (H2 k h' Hk') as (h'' & Hk'' & Hpl'' & Hq'').
  exists h''. split; [done|]. split; [congruence|]. by etrans.
Qed.


End DispatchMore.

Lemma dispatch_bot_after (input : Input) (plugin : Plugin) (bot : Bot) :
  handlers_kept bot (bot_after (dispatch input plugin bot))
  /\ (forall k, k <> plugin_id plugin ->
        threads (bot_after (dispatch input plugin bot)) !! k = threads bot !! k).
Proof.
  destruct (sieve_loop_step plugin bot (sieves (plugin_manager bot)) input)
    as (es & r & Hs & _).
  rewrite (dispatch_step _ _ _ _ _ Hs). unfold after_effects, dispatch_tail.
  cbn [bot_after].
  destruct r as [input1|]; [|split; [apply handlers_kept_refl | done]].
  destruct (autohelp_condition input1 plugin).
  { destruct (conn_config (conn input1) !! "command_prefix");
      (split; [apply handlers_kept_refl | done]). }
  destruct (default false (args plugin !! "singlethread")) eqn:Hst.
  - destruct (threads bot !! plugin_id plugin) as [h|] eqn:Hh.
    + rewrite (start_plugin_existing _ _ _ _ Hst Hh). cbn [bot_after].
      split.
      * repeat split. intros k h0 Hk. simpl.
        destruct (decide (k = plugin_id plugin)) as [->|Hne].
        -- rewrite lookup_insert_eq. exists (put h input1).
           assert (h0 = h) as -> by congruence.
           split; [done|]. split; [done|]. by eexists.
        -- rewrite lookup_insert_ne by done. by exists h0.
      * intros k Hne. simpl. by rewrite lookup_insert_ne.
    + rewrite (start_plugin_first _ _ _ Hst Hh). cbn [bot_after].
      split.
      * repeat split. intros k h0 Hk. simpl.
        destruct (decide (k = plugin_id plugin)) as [->|Hne]; [congruence|].
        rewrite lookup_insert_ne by done. by exists h0.
      * intros k Hne. simpl. by rewrite lookup_insert_ne.
  - rewrite (start_plugin_concurrent _ _ _ Hst).
    split; [apply handlers_kept_refl | done].
Qed.

(** X4.  [dispatch] leaves the tables and the running flag of the bot
    alone, touches [bot.threads] at the key of its plugin only, and never
    removes or resets a handler: every handler that existed is still there
    for the same plugin, with the items it had at the head of its queue. *)
Theorem dispatch_keeps_handlers (input : Input) (plugin : Plugin) (bot : Bot) :
  handlers_kept bot (bot_after (dispatch input plugin bot))
  /\ (forall k, k <> plugin_id plugin ->
        threads (bot_after (dispatch input plugin bot)) !! k = threads bot !! k).
Proof. apply dispatch_bot_after. Qed.

(** X5.  [dispatch] is left by an exception in one case only: the event
    passed the sieves, the autohelp condition holds, and the configuration
    of the event's connection has no [command_prefix].  The exception is
    [KeyError]; the bot is unchanged, no notice is sent and no thread is
    started. *)
Theorem dispatch_raises_iff (input : Input) (plugin : Plugin) (bot : Bot)
    (e : PyExc) :
  outcome (dispatch input plugin bot) = inl e <->
  e = KeyError "command_prefix"
  /\ exists input1,
       outcome (sieve_loop (sieves (plugin_manager bot)) input plugin bot)
         = inr (Some input1)
       /\ autohelp_condition input1 plugin = true
       /\ conn_config (conn input1) !! "command_prefix" = None
       /\ bot_after (dispatch input plugin bot) = bot
       /\ existsb is_action (effects (dispatch input plugin bot)) = false.
Proof.
  destruct (sieve_loop_step plugin bot (sieves (plugin_manager bot)) input)
    as (es & r & Hs & Htrace).
  rewrite (dispatch_step _ _ _ _ _ Hs), Hs. unfold after_effects, dispatch_tail.
  destruct (sieve_trace_only es Htrace) as (_ & Hnt & _ & Hns).
  destruct r as [input1|]; simpl.
  2: { split; [done|]. by intros (_ & i & [=] & _). }
  destruct (autohelp_condition input1 plugin) eqn:Hc.
  - destruct (conn_config (conn input1) !! "command_prefix") as [p|] eqn:Hp;
      simpl.
    + split; [done|]. intros (_ & i & [= <-] & _ & Hnone & _). congruence.
    + split.
      * intros [= <-]. split; [done|]. exists input1.
        repeat split; try done. rewrite app_nil_r. unfold is_action.
        clear -Hnt Hns. induction es as [|x es IH]; [done|]. simpl in *.
        apply orb_false_iff in Hnt as [-> Hnt].
        apply orb_false_iff in Hns as [-> Hns]. by rewrite IH.
      * by intros (-> & _).
  - destruct (start_plugin_no_notice plugin bot input1) as [_ Hout].
    rewrite Hout. split; [done|]. intros (_ & i & [= <-] & Hc' & _). congruence.
Qed.



(** * Further properties of the router *)

Section RouterMore.

Variable re_match_command : bool -> string -> string -> string -> option (string * string).

Lemma bind_ext {A B} (m m' : M A) (f f' : A -> M B) (bot : Bot) :
  m bot = m' bot ->
  (forall a b, f a b = f' a b) ->
  bind m f bot = bind m' f' bot.
Proof.
  intros Hm Hf. unfold bind. rewrite Hm.
  destruct (outcome (m' bot)); [done|]. by rewrite Hf.
Qed.

Lemma bind_ret_r (m : M unit) (bot : Bot) : (m ;;; ret tt) bot = m bot.
Proof.
  unfold bind, ret. destruct (m bot) as [b es [e|[]]]; simpl; [done|].
  by rewrite app_nil_r.
Qed.

Lemma bind_assoc {A B C} (m : M A) (f : A -> M B) (g : B -> M C) (bot : Bot) :
  bind (bind m f) g bot = bind m (fun a => bind (f a) g) bot.
Proof.
  unfold bind. destruct (m bot) as [b1 es1 [e|a]]; simpl; [done|].
  destruct (f a b1) as [b2 es2 [e|b]]; simpl; [done|].
  by rewrite app_assoc.
Qed.

Lemma for_app {X} (xs ys : list X) (body : X -> M unit) (bot : Bot) :
  for_ (xs ++ ys) body bot = (for_ xs body ;;; for_ ys body) bot.
Proof.
  revert bot. induction xs as [|x xs IH]; intros bot; simpl.
  - by rewrite bind_ret_step.
  - rewrite bind_assoc. apply bind_ext; [done|]. intros _ b. apply IH.
Qed.

(** The two event loops: one dispatch per plugin, on the event of the
    line. *)
Lemma for_new_Input (c : BotConnection) (out : ParsedLine) (inp : Input)
    (ps : list Plugin) (bot : Bot) :
  Input_init c out = inr inp ->
  for_ ps (fun event_plugin =>
             input <- new_Input c out ;; dispatch input event_plugin) bot
  = for_ (map (fun plugin => (inp, plugin)) ps) dispatch_call bot.
Proof.
  intros Hinit. revert bot. induction ps as [|p ps IH]; intros bot; simpl; [done|].
  apply bind_ext; [|intros _ b; apply IH].
  unfold new_Input. rewrite Hinit. cbn [lift_result].
  exact (bind_ret_step inp (fun input => dispatch input p) bot).
Qed.

Lemma for_regex_body (c : BotConnection) (out : ParsedLine) (inp : Input)
    (rs : list (Regex * Plugin)) (bot : Bot) :
  Input_init c out = inr inp ->
  for_ rs (regex_body c out inp) bot
  = for_ (map (fun '(m, plugin) => (set_text (TextMatch m) inp, plugin))
            (pattern_matches rs (lastparam inp))) dispatch_call bot.
Proof.
  intros Hinit. revert bot.
  induction rs as [|[regex plugin] rs IH]; intros bot; [done|].
  rewrite pattern_matches_cons. cbn [for_].
  destruct (search regex (lastparam inp)) as [m|] eqn:Hm.
  - cbn [map for_]. apply bind_ext; [|intros _ b; apply IH].
    by apply regex_body_match.
  - rewrite <- IH. unfold bind at 1.
    rewrite (regex_body_no_match _ _ _ _ _ _ Hm). simpl.
    by destruct (for_ rs (regex_body c out inp) bot).
Qed.

(** [main] is the sequence of the dispatches of [routes]. *)
Lemma main_for_routes (bot : Bot) (c : BotConnection) (out : ParsedLine)
    (inp : Input) :
  Input_init c out = inr inp ->
  main re_match_command c out bot =
    for_ (routes re_match_command (plugin_manager bot) c inp) dispatch_call bot.
Proof.
  intros Hinit. unfold main.
  rewrite (bind_step get_bot _ bot bot [] bot eq_refl), after_effects_nil.
  unfold new_Input at 1. rewrite Hinit. cbn [lift_result].
  rewrite bind_ret_step. unfold routes.
  rewrite for_app. apply bind_ext; [by apply for_new_Input|]. intros _ b1.
  rewrite for_app. apply bind_ext; [by apply for_new_Input|]. intros _ b2.
  destruct (String.eqb (command inp) "PRIVMSG"); [|done].
  rewrite for_app. apply bind_ext.
  - unfold command_route.
    destruct (re_match_command _ _ _ _) as [[group1 group2]|]; [|done].
    destruct (commands (plugin_manager bot) !! lower group1) as [plugin|]; [|done].
    cbn [for_]. rewrite bind_ret_r. unfold new_Input. rewrite Hinit.
    cbn [lift_result].
    exact (bind_ret_step inp
             (fun input => dispatch (command_event input group1 group2) plugin) b2).
  - intros _ b3. exact (for_regex_body c out inp _ b3 Hinit).
Qed.

End RouterMore.

Section Calls.

Lemma sieve_trace_routing (es : list Effect) :
  forallb is_sieve_trace es = true -> forallb is_routing_effect es = true.
Proof.
  induction es as [|e es IH]; [done|]. simpl.
  intros [He Hes]%andb_true_iff. rewrite (IH Hes). by destruct e.
Qed.

Lemma dispatch_routing_effects (input : Input) (plugin : Plugin) (bot : Bot) :
  forallb is_routing_effect (effects (dispatch input plugin bot)) = true.
Proof.
  destruct (sieve_loop_step plugin bot (sieves (plugin_manager bot)) input)
    as (es & r & Hs & Htrace).
  rewrite (dispatch_step _ _ _ _ _ Hs). unfold after_effects. simpl.
  rewrite forallb_app, (sieve_trace_routing es Htrace). simpl.
  unfold dispatch_tail. destruct r as [input1|]; [|done].
  destruct (autohelp_condition input1 plugin).
  - by destruct (conn_config (conn input1) !! "command_prefix").
  - destruct (default false (args plugin !! "singlethread")) eqn:Hst.
    + destruct (threads bot !! plugin_id plugin) as [h|] eqn:Hh.
      * by rewrite (start_plugin_existing _ _ _ _ Hst Hh).
      * by rewrite (start_plugin_first _ _ _ Hst Hh).
    + by rewrite (start_plugin_concurrent _ _ _ Hst).
Qed.




Lemma bind_cases {A B} (m : M A) (f : A -> M B) (bot : Bot) :
  (exists e, outcome (m bot) = inl e
     /\ bind m f bot = mkStep (bot_after (m bot)) (effects (m bot)) (inl e))
  \/ (exists a, outcome (m bot) = inr a
        /\ bind m f bot =
             after_effects (effects (m bot)) (f a (bot_after (m bot)))).
Proof.
  unfold bind. destruct (m bot) as [b1 es1 [e|a]]; simpl.
  - left. by exists e.
  - right. by exists a.
Qed.

Lemma for_cons_call (i : Input) (p : Plugin) (calls : list (Input * Plugin))
    (bot : Bot) :
  for_ ((i, p) :: calls) dispatch_call bot
  = bind (dispatch i p) (fun _ => for_ calls dispatch_call) bot.
Proof. done. Qed.

Lemma for_calls_kept (calls : list (Input * Plugin)) (bot : Bot) :
  handlers_kept bot (bot_after (for_ calls dispatch_call bot)).
Proof.
  revert bot. induction calls as [|[i p] calls IH]; intros bot.
  - apply handlers_kept_refl.
  - rewrite for_cons_call.
    pose proof (proj1 (dispatch_bot_after i p bot)) as Hd.
    destruct (bind_cases (dispatch i p) (fun _ => for_ calls dispatch_call) bot)
      as [(e & _ & ->)|([] & _ & ->)]; [done|].
    eapply handlers_kept_trans; [exact Hd | apply IH].
Qed.

Lemma for_calls_routing (calls : list (Input * Plugin)) (bot : Bot) :
  forallb is_routing_effect (effects (for_ calls dispatch_call bot)) = true.
Proof.
  revert bot. induction calls as [|[i p] calls IH]; intros bot; [done|].
  rewrite for_cons_call.
  pose proof (dispatch_routing_effects i p bot) as Hd.
  destruct (bind_cases (dispatch i p) (fun _ => for_ calls dispatch_call) bot)
    as [(e & _ & ->)|([] & _ & ->)]; [done|].
  unfold after_effects. cbn [effects]. by rewrite forallb_app, Hd, IH.
Qed.





End Calls.


(** X8.  Whatever the line and the tables, the routing thread only calls
    sieves, logs, sends NOTICEs and starts threads: it never calls a plugin
    function, never opens or closes a store session and never sends a
    message to a channel or user itself. *)
Theorem main_only_routes
    (re_match_command : bool -> string -> string -> string -> option (string * string))
    (bot : Bot) (c : BotConnection) (out : ParsedLine) :
  forallb is_routing_effect (effects (main re_match_command c out bot)) = true
  /\ existsb is_session_or_call (effects (main re_match_command c out bot)) = false.
Proof.
  assert (H : forallb is_routing_effect
                (effects (main re_match_command c out bot)) = true).
  { destruct (Input_init c out) as [e|inp] eqn:Hinit.
    - by rewrite (main_Input_error _ _ _ _ _ Hinit).
    - rewrite (main_for_routes _ _ _ _ _ Hinit). apply for_calls_routing. }
  split; [done|].
  induction (effects (main re_match_command c out bot)) as [|x es IH]; [done|].
  simpl in *. apply andb_true_iff in H as [Hx Hes]. rewrite (IH Hes).
  destruct x; try done.
Qed.



(** X11.  [main] leaves the tables and the running flag of the bot alone
    and never removes or resets a handler: after any line, every handler
    is still there for the same plugin, with the items it had at the head
    of its queue. *)
Theorem main_keeps_handlers
    (re_match_command : bool -> string -> string -> string -> option (string * string))
    (bot : Bot) (c : BotConnection) (out : ParsedLine) :
  handlers_kept bot (bot_after (main re_match_command c out bot)).
Proof.
  destruct (Input_init c out) as [e|inp] eqn:Hinit.
  - rewrite (main_Input_error _ _ _ _ _ Hinit). apply handlers_kept_refl.
  - rewrite (main_for_routes _ _ _ _ _ Hinit). apply for_calls_kept.
Qed.

(** * Further properties of the ordered worker *)

Section WorkerMore.

Lemma exec_app (s1 s2 : list Action) (s : System) :
  exec (s1 ++ s2) s = exec s2 (exec s1 s).
Proof. unfold exec. by rewrite foldl_app. Qed.

Lemma exec_cons (a : Action) (schedule : list Action) (s : System) :
  exec (a :: schedule) s = exec schedule (act a s).
Proof. done. Qed.

(** Once the bot has stopped running, no event is handled any more. *)
Lemma exec_not_running (schedule : list Action) (s : System) :
  sys_running s = false ->
  sys_running (exec schedule s) = false
  /\ handled (sys_worker (exec schedule s)) = handled (sys_worker s).
Proof.
  revert s. induction schedule as [|a schedule IH]; intros s Hrun; [done|].
  rewrite exec_cons.
  assert (Hact : sys_running (act a s) = false
                 /\ handled (sys_worker (act a s)) = handled (sys_worker s)).
  { destruct s as [running [h p pin done]]. simpl in Hrun. subst running.
    destruct a; simpl; try done. unfold worker_step; simpl.
    by destruct p. }
  destruct Hact as [Hrun' Hh]. destruct (IH _ Hrun') as [Hr Hh'].
  split; [done | congruence].
Qed.

Lemma not_running_exits (s : System) :
  sys_running s = false ->
  pc (sys_worker (act AWorker (act AWorker s))) = Exited.
Proof.
  destruct s as [running [h p pin done]]. simpl. intros ->.
  unfold worker_step; simpl. by destruct p.
Qed.

(** A thread that has left its loop stays out. *)
Lemma exec_exited (schedule : list Action) (s : System) :
  pc (sys_worker s) = Exited ->
  pc (sys_worker (exec schedule s)) = Exited
  /\ handled (sys_worker (exec schedule s)) = handled (sys_worker s).
Proof.
  revert s. induction schedule as [|a schedule IH]; intros s Hpc; [done|].
  rewrite exec_cons.
  assert (Hact : pc (sys_worker (act a s)) = Exited
                 /\ handled (sys_worker (act a s)) = handled (sys_worker s)).
  { destruct s as [running [h p pin done]]. simpl in Hpc. subst p.
    destruct a; simpl; done. }
  destruct Hact as [Hpc' Hh]. destruct (IH _ Hpc') as [Hp Hh'].
  split; [done | congruence].
Qed.

Lemma exec_puts (later : list Input) (s : System) :
  exec (map APut later) s =
    mkSystem (sys_running s)
      (on_handler
         (fun h => mkHandler (handler_plugin h)
                     (input_queue h ++ map QInput later))
         (sys_worker s)).
Proof.
  revert s. induction later as [|v later IH]; intros s.
  - destruct s as [running [[hp q] p pin done]]. unfold on_handler; simpl.
    by rewrite app_nil_r.
  - cbn [map]. rewrite exec_cons, IH.
    destruct s as [running [[hp q] p pin done]]. unfold on_handler, put; simpl.
    by rewrite <- app_assoc.
Qed.

(** A polling worker whose queue holds events and then the sentinel handles
    the events in order and leaves its loop at the sentinel. *)
Lemma exec_worker_drain_stop (vs : list Input) (tail : list QueueItem)
    (w : Worker) (n : nat) :
  pc w = Polling ->
  input_queue (handler w) = map QInput vs ++ QStopIteration :: tail ->
  2 * List.length vs + 2 <= n ->
  let w' := sys_worker (exec (replicate n AWorker) (mkSystem true w)) in
  handled w' = handled w ++ vs /\ pc w' = Exited.
Proof.
  revert w n. induction vs as [|v vs IH]; intros w n Hpc Hq Hn.
  - simpl in Hn, Hq. destruct n as [|[|n]]; [lia..|].
    rewrite !exec_worker_S.
    destruct w as [[hp q] p pin done]. simpl in Hpc, Hq. subst p q.
    assert (Hstep :
      act AWorker (act AWorker
        (mkSystem true
           (mkWorker (mkHandler hp (QStopIteration :: tail)) Polling pin done)))
      = mkSystem true
          (mkWorker (mkHandler hp tail) Exited (Some QStopIteration) done))
      by done.
    rewrite Hstep.
    destruct (exec_exited (replicate n AWorker)
                (mkSystem true
                   (mkWorker (mkHandler hp tail) Exited (Some QStopIteration) done))
                eq_refl) as [Hp Hh].
    intros w'. unfold w'. rewrite Hp, Hh. simpl. by rewrite app_nil_r.
  - simpl in Hn, Hq. destruct n as [|[|n]]; [lia..|].
    rewrite !exec_worker_S.
    destruct w as [[hp q] p pin done]. simpl in Hpc, Hq. subst p q.
    assert (Hstep :
      act AWorker (act AWorker
        (mkSystem true
           (mkWorker
              (mkHandler hp (QInput v :: map QInput vs ++ QStopIteration :: tail))
              Polling pin done)))
      = mkSystem true
          (mkWorker (mkHandler hp (map QInput vs ++ QStopIteration :: tail))
             Polling (Some (QInput v)) (done ++ [v]))) by done.
    rewrite Hstep.
    destruct (IH (mkWorker (mkHandler hp (map QInput vs ++ QStopIteration :: tail))
                    Polling (Some (QInput v)) (done ++ [v])) n) as [Hh Hp];
      [done | done | lia |].
    simpl in Hh, Hp |- *. rewrite Hh, Hp. by rewrite <- app_assoc.
Qed.

End WorkerMore.

(** X12.  Clearing [bot.running] ends the work of a handler thread: from
    then on no further event is handled, whatever is still on the queue or
    put later, and the thread leaves its loop within two steps. *)
Theorem worker_stops_after_shutdown (plugin : Plugin)
    (before after : list Action) :
  handled (sys_worker
     (exec (before ++ AShutdown :: after) (system_init plugin)))
  = handled (sys_worker (exec before (system_init plugin)))
  /\ pc (sys_worker
       (exec (before ++ AShutdown :: after ++ [AWorker; AWorker])
          (system_init plugin))) = Exited.
Proof.
  split.
  - rewrite exec_app, exec_cons.
    by destruct (exec_not_running after
                   (act AShutdown (exec before (system_init plugin))) eq_refl).
  - rewrite exec_app, exec_cons, exec_app.
    destruct (exec_not_running after
                (act AShutdown (exec before (system_init plugin))) eq_refl)
      as [Hrun _].
    exact (not_running_exits _ Hrun).
Qed.

(** X13.  [Handler.stop] lets the thread finish what was put before it and
    no more: with the bot running, once the worker has had two steps per
    item, it has handled exactly the events put before the sentinel, in
    order, and has left its loop; events put after the sentinel are never
    handled, whatever happens later. *)
Theorem worker_stop_sentinel (plugin : Plugin) (before : list Action)
    (later : list Input) (n : nat) (more : list Action) :
  forallb keeps_running before = true ->
  2 * List.length (enqueued before) + 2 <= n ->
  let s := exec (before ++ AStop :: map APut later ++ replicate n AWorker)
             (system_init plugin) in
  handled (sys_worker s) = inputs_of (enqueued before)
  /\ pc (sys_worker s) = Exited
  /\ handled (sys_worker (exec more s)) = inputs_of (enqueued before).
Proof.
  intros Hquiet Hn s.
  assert (Hs : handled (sys_worker s) = inputs_of (enqueued before)
               /\ pc (sys_worker s) = Exited).
  { unfold s. rewrite exec_app, exec_cons, exec_app, exec_puts.
    pose proof (worker_inv_exec plugin before) as (hand & Heq & Hhand).
    pose proof (alive_inv_exec plugin before Hquiet) as (Hrun & _ & Hq & Hpc).
    rewrite Heq in Hn |- *. rewrite !inputs_of_app, inputs_of_map.
    rewrite !length_app, length_map in Hn.
    destruct (exec before (system_init plugin)) as [running [[hp q] p pin done]].
    simpl in *. subst running. unfold in_hand_ok in Hhand. simpl in Hhand.
    pose proof (all_inputs _ Hq) as Hqueue.
    unfold on_handler, stop; simpl.
    destruct p; [| |done].
    - subst hand. simpl in *.
      destruct (exec_worker_drain_stop (inputs_of q) (map QInput later)
                  (mkWorker (mkHandler hp ((q ++ [QStopIteration]) ++ map QInput later))
                     Polling pin done) n) as [Hh Hp];
        [done | simpl; rewrite <- app_assoc; by rewrite <- Hqueue
         | rewrite Hqueue, length_map in Hn; lia |].
      simpl in Hh, Hp. by rewrite Hh, Hp.
    - destruct Hpc as [v ->].
      destruct Hhand as [[_ [=]]|(item & [= <-] & ->)]. simpl in *.
      destruct n as [|n]; [lia|]. rewrite exec_worker_S.
      assert (Hstep :
        act AWorker
          (mkSystem true
             (mkWorker (mkHandler hp ((q ++ [QStopIteration]) ++ map QInput later))
                Checking (Some (QInput v)) done))
        = mkSystem true
            (mkWorker (mkHandler hp ((q ++ [QStopIteration]) ++ map QInput later))
               Polling (Some (QInput v)) (done ++ [v]))) by done.
      rewrite Hstep.
      destruct (exec_worker_drain_stop (inputs_of q) (map QInput later)
                  (mkWorker (mkHandler hp ((q ++ [QStopIteration]) ++ map QInput later))
                     Polling (Some (QInput v)) (done ++ [v])) n) as [Hh Hp];
        [done | simpl; rewrite <- app_assoc; by rewrite <- Hqueue
         | rewrite Hqueue, length_map in Hn; lia |].
      simpl in Hh, Hp. rewrite Hh, Hp. by rewrite <- app_assoc. }
  destruct Hs as [Hh Hp]. split; [done|]. split; [done|].
  destruct (exec_exited more s Hp) as [_ Hm]. congruence.
Qed.


(** * Strings and events *)

Section Strings.









End Strings.




(** * Dispatching to an existing handler *)

Section Enqueue.

Variable plugin : Plugin.

Lemma sieve_loop_apply (ss : list Sieve) (input : Input) (bot : Bot) :
  outcome (sieve_loop ss input plugin bot) = inr (apply_sieves ss input plugin).
Proof.
  revert input. induction ss as [|sieve rest IH]; intros input; [done|].
  cbn [sieve_loop apply_sieves].
  destruct (do_sieve_step plugin bot sieve input) as (es & r & Hs & _ & Hdrop & Hr).
  rewrite (bind_step _ _ _ _ _ _ Hs). unfold after_effects. cbn [outcome].
  destruct r as [input'|].
  - rewrite (proj1 (Hr input') eq_refl). apply IH.
  - destruct (proj1 Hdrop eq_refl) as [->|[e ->]]; done.
Qed.

(** One dispatch to an ordered plugin that is not a command plugin and has
    its handler already. *)
Lemma dispatch_existing (input : Input) (bot : Bot) (h : Handler) :
  default false (args plugin !! "singlethread") = true ->
  isinstance_CommandPlugin plugin = false ->
  threads bot !! plugin_id plugin = Some h ->
  exists es,
    forallb is_sieve_trace es = true
    /\ dispatch input plugin bot =
         mkStep
           (match apply_sieves (sieves (plugin_manager bot)) input plugin with
            | Some input1 =>
                set_threads (<[plugin_id plugin := put h input1]> (threads bot)) bot
            | None => bot
            end) es (inr tt).
Proof.
  intros Hst Hcmd Hh.
  destruct (sieve_loop_step plugin bot (sieves (plugin_manager bot)) input)
    as (es & r & Hs & Htrace).
  pose proof (sieve_loop_apply (sieves (plugin_manager bot)) input bot) as Hr.
  rewrite Hs in Hr. simpl in Hr. injection Hr as <-.
  exists es. split; [done|].
  rewrite (dispatch_step _ _ _ _ _ Hs). unfold after_effects, dispatch_tail.
  destruct r as [input1|]; [|unfold ret; simpl; by rewrite app_nil_r].
  unfold autohelp_condition. rewrite Hcmd. simpl.
  rewrite (start_plugin_existing _ _ _ _ Hst Hh). simpl. by rewrite app_nil_r.
Qed.

End Enqueue.

(** X17.  Events dispatched one after the other to an ordered plugin that
    has its handler (and is not a command plugin) end up on the queue of
    that handler, behind what was there, in the order of the dispatches;
    each is the event as the sieves handed it on, and the events that a
    sieve dropped are left out.  No thread is started and nothing is
    sent. *)
Theorem dispatches_enqueue_in_order (plugin : Plugin) (evs : list Input)
    (bot : Bot) (h : Handler) :
  default false (args plugin !! "singlethread") = true ->
  isinstance_CommandPlugin plugin = false ->
  threads bot !! plugin_id plugin = Some h ->
  let s := for_ (map (fun e => (e, plugin)) evs) dispatch_call bot in
  outcome s = inr tt
  /\ existsb is_action (effects s) = false
  /\ exists h',
       threads (bot_after s) !! plugin_id plugin = Some h'
       /\ handler_plugin h' = handler_plugin h
       /\ input_queue h' =
            input_queue h ++
            map QInput
              (omap (fun e => apply_sieves (sieves (plugin_manager bot)) e plugin)
                 evs).
Proof.
  intros Hst Hcmd. revert bot h.
  induction evs as [|e evs IH]; intros bot h Hh; cbn [map].
  - simpl. repeat split; try done. exists h. by rewrite app_nil_r.
  - rewrite for_cons_call.
    destruct (dispatch_existing plugin e bot h Hst Hcmd Hh) as (es & Htrace & Hd).
    rewrite (bind_step _ _ _ _ _ _ Hd). unfold after_effects.
    cbn [outcome effects bot_after].
    destruct (sieve_trace_only es Htrace) as (_ & Hnt & _ & Hns).
    assert (Hna : existsb is_action es = false).
    { unfold is_action. clear -Hnt Hns. induction es as [|x es IHes]; [done|].
      simpl in *. apply orb_false_iff in Hnt as [-> Hnt].
      apply orb_false_iff in Hns as [-> Hns]. by rewrite IHes. }
    cbn [omap list_omap].
    destruct (apply_sieves (sieves (plugin_manager bot)) e plugin) as [e1|] eqn:He.
    + destruct (IH (set_threads (<[plugin_id plugin := put h e1]> (threads bot)) bot)
                  (put h e1)) as (Hout & Hact & h' & Hh' & Hpl & Hq).
      { simpl. by rewrite lookup_insert_eq. }
      split; [exact Hout|]. split; [by rewrite existsb_app, Hna, Hact|].
      exists h'. split; [exact Hh'|]. split; [exact Hpl|].
      rewrite Hq. simpl. by rewrite <- app_assoc.
    + destruct (IH bot h Hh) as (Hout & Hact & h' & Hh' & Hpl & Hq).
      split; [exact Hout|]. split; [by rewrite existsb_app, Hna, Hact|].
      by exists h'.
Qed.


(** * The further properties at concrete inputs *)

Lemma run_handler_exception_is_silent_witness :
  resolve (with_db ExMore.raising_plugin Ex.chan_event)
    (required_args ExMore.raising_plugin) [] = inr [VStr "alice"]
  /\ function ExMore.raising_plugin [VStr "alice"]
       = Raised (OtherException "ValueError")
  /\ existsb is_send (run ExMore.raising_plugin Ex.chan_event) = false
  /\ last (run ExMore.raising_plugin Ex.chan_event)
       = Some (LogParameters [VStr "alice"]).
Proof.
  split; [reflexivity|]. split; [reflexivity|].
  destruct (run_handler_exception_is_silent ExMore.raising_plugin Ex.chan_event
              [VStr "alice"] (OtherException "ValueError") eq_refl eq_refl)
    as (Hsend & _ & _ & Hlast).
  split; [exact Hsend | exact Hlast].
Defined.




(** One event put and taken, the sentinel, one event put after it: only the
    first is ever handled. *)
Lemma worker_stop_sentinel_witness :
  forallb keeps_running [APut Ex.chan_event; AWorker] = true
  /\ 2 * List.length (enqueued [APut Ex.chan_event; AWorker]) + 2 <= 4
  /\ handled (sys_worker
       (exec [AWorker; APut Ex.chan_event; AWorker]
          (exec ([APut Ex.chan_event; AWorker] ++
                 AStop :: map APut [Ex.pm_event] ++ replicate 4 AWorker)
             (system_init Ex.ordered_plugin))))
     = [Ex.chan_event].
Proof.
  assert (Hn : 2 * List.length (enqueued [APut Ex.chan_event; AWorker]) + 2 <= 4)
    by (simpl; apply le_n).
  split; [reflexivity|]. split; [exact Hn|].
  destruct (worker_stop_sentinel Ex.ordered_plugin [APut Ex.chan_event; AWorker]
              [Ex.pm_event] 4 [AWorker; APut Ex.chan_event; AWorker] eq_refl Hn)
    as (_ & _ & Hmore).
  exact Hmore.
Defined.



(** Three dispatches, the second of a private message that the sieve
    drops: the queue gets the first and the third event. *)
Lemma dispatches_enqueue_in_order_witness :
  default false (args Ex.ordered_plugin !! "singlethread") = true
  /\ isinstance_CommandPlugin Ex.ordered_plugin = false
  /\ threads ExMore.handler_bot !! plugin_id Ex.ordered_plugin
       = Some (Handler_init Ex.ordered_plugin)
  /\ exists h',
       threads (bot_after
          (for_ (map (fun e => (e, Ex.ordered_plugin))
                   [Ex.chan_event; Ex.pm_event; Ex.chan_event])
             dispatch_call ExMore.handler_bot)) !! plugin_id Ex.ordered_plugin
         = Some h'
       /\ handler_plugin h' = handler_plugin (Handler_init Ex.ordered_plugin)
       /\ input_queue h' =
            input_queue (Handler_init Ex.ordered_plugin) ++
            map QInput
              (omap (fun e => apply_sieves
                                (sieves (plugin_manager ExMore.handler_bot)) e
                                Ex.ordered_plugin)
                 [Ex.chan_event; Ex.pm_event; Ex.chan_event]).
Proof.
  split; [reflexivity|]. split; [reflexivity|]. split; [reflexivity|].
  destruct (dispatches_enqueue_in_order Ex.ordered_plugin
              [Ex.chan_event; Ex.pm_event; Ex.chan_event] ExMore.handler_bot
              (Handler_init Ex.ordered_plugin) eq_refl eq_refl eq_refl)
    as (_ & _ & H).
  exact H.
Defined.

Example dispatches_enqueue_in_order_queue :
  omap (fun e => apply_sieves (sieves (plugin_manager ExMore.handler_bot)) e
                   Ex.ordered_plugin)
    [Ex.chan_event; Ex.pm_event; Ex.chan_event]
  = [Ex.chan_event; Ex.chan_event].
Proof. reflexivity. Qed.
